(** * Chat analyzer: parsing, metrics and scoring engine of [app.py]

    A shallow embedding of the computational core of the chat analyzer
    ([calculate_lovescore], [calculate_friendship_score], [parse_chat],
    [get_base_metrics], [analyze_chat_dynamics], [analyze_starters]) and
    the properties its specification states about it.

    Conventions.
    - Python numbers that hold ratios and averages are modelled as
      rationals ([Q]); Python [int]s as [Z]; counts as [nat].
    - A Python [str] is a list of Unicode code points ([N]).
    - The [DataFrame] built by [parse_chat] has three columns and is only
      ever read by position ([.iloc]) or column-wise, so it is a list of
      rows. *)

From Stdlib Require Import QArith Lqa ZArith NArith Lia String Ascii.
From stdpp Require Import gmap list.

#[local] Set Warnings "-clear-no-such-hyp".

Local Open Scope Z_scope.

(** ** Comparisons on rationals, as booleans *)

Definition Qltb (x y : Q) : bool :=
  match (x ?= y)%Q with Lt => true | _ => false end.

Definition Qgtb (x y : Q) : bool := Qltb y x.

Definition Qleb (x y : Q) : bool := negb (Qltb y x).

(** ** Scoring engine (app.py, lines 21-61) *)

Module Score.

(** The four tier chains of [calculate_lovescore]. *)

Definition love_R (T : Q) : Z :=
  if Qltb T 2 then 25
  else if Qltb T 5 then 15
  else if Qltb T 10 then 10
  else if Qltb T 30 then 5
  else -15.

Definition love_E (e : Q) : Z :=
  if Qgtb e 0.5 then 20
  else if Qgtb e 0.2 then 15
  else if Qgtb e 0.1 then 10
  else if Qgtb e 0.05 then 5
  else 0.

Definition love_M (m : Q) : Z :=
  if Qgtb m 0.45 then 15
  else if Qgtb m 0.35 then 10
  else if Qgtb m 0.25 then 5
  else -10.

Definition love_C (d : Q) : Z :=
  if Qgtb d 0.8 then 15
  else if Qgtb d 0.5 then 10
  else if Qgtb d 0.3 then 5
  else 0.

Definition calculate_lovescore (T e m d : Q) : Z * Z * Z * Z * Z :=
  let R := love_R T in
  let E := love_E e in
  let M := love_M m in
  let C := love_C d in
  let lovescore := 50 + R + E + M + C in
  (lovescore, R, E, M, C).

(** The four tier chains of [calculate_friendship_score]. *)

Definition friendship_R (T : Q) : Z :=
  if Qltb T 5 then 20
  else if Qltb T 15 then 10
  else if Qltb T 60 then 5
  else 0.

Definition friendship_E (e : Q) : Z :=
  if Qgtb e 0.2 then 20
  else if Qgtb e 0.1 then 15
  else if Qgtb e 0.05 then 10
  else 0.

Definition friendship_M (m : Q) : Z :=
  if Qgtb m 0.40 then 20
  else if Qgtb m 0.30 then 10
  else -5.

Definition friendship_C (d : Q) : Z :=
  if Qgtb d 0.6 then 20
  else if Qgtb d 0.3 then 10
  else 0.

Definition calculate_friendship_score (T e m d : Q) : Z :=
  let R := friendship_R T in
  let E := friendship_E e in
  let M := friendship_M m in
  let C := friendship_C d in
  let friendship_score := 40 + R + E + M + C in
  friendship_score.

(** *** Tier tables, as the specification lists them

    A tier is a band of the real line together with the sub-score it
    awards.  Bands are given by an optional exclusive/inclusive lower
    bound and an optional upper bound. *)

Record tier := Tier {
  above : option (Q * bool);   (* lower bound, [true] when inclusive *)
  below : option (Q * bool);   (* upper bound, [true] when inclusive *)
  award : Z
}.

Definition in_tier (x : Q) (t : tier) : bool :=
  match above t with
  | None => true
  | Some (lo, incl) => if incl then Qleb lo x else Qltb lo x
  end &&
  match below t with
  | None => true
  | Some (hi, incl) => if incl then Qleb x hi else Qltb x hi
  end.

(** A chain of strict [<] tests: [x < b1], [b1 <= x < b2], ..., [bn <= x]. *)
Fixpoint ascending (lo : option (Q * bool)) (bs : list (Q * Z)) (last : Z)
  : list tier :=
  match bs with
  | [] => [Tier lo None last]
  | (b, a) :: bs' => Tier lo (Some (b, false)) a :: ascending (Some (b, true)) bs' last
  end.

(** A chain of strict [>] tests: [x > b1], [b2 < x <= b1], ..., [x <= bn]. *)
Fixpoint descending (hi : option (Q * bool)) (bs : list (Q * Z)) (last : Z)
  : list tier :=
  match bs with
  | [] => [Tier None hi last]
  | (b, a) :: bs' => Tier (Some (b, false)) hi a :: descending (Some (b, true)) bs' last
  end.

Definition love_R_tiers : list tier :=
  ascending None [(2%Q, 25); (5%Q, 15); (10%Q, 10); (30%Q, 5)] (-15).
Definition love_E_tiers : list tier :=
  descending None [(0.5%Q, 20); (0.2%Q, 15); (0.1%Q, 10); (0.05%Q, 5)] 0.
Definition love_M_tiers : list tier :=
  descending None [(0.45%Q, 15); (0.35%Q, 10); (0.25%Q, 5)] (-10).
Definition love_C_tiers : list tier :=
  descending None [(0.8%Q, 15); (0.5%Q, 10); (0.3%Q, 5)] 0.

Definition friendship_R_tiers : list tier :=
  ascending None [(5%Q, 20); (15%Q, 10); (60%Q, 5)] 0.
Definition friendship_E_tiers : list tier :=
  descending None [(0.2%Q, 20); (0.1%Q, 15); (0.05%Q, 10)] 0.
Definition friendship_M_tiers : list tier :=
  descending None [(0.40%Q, 20); (0.30%Q, 10)] (-5).
Definition friendship_C_tiers : list tier :=
  descending None [(0.6%Q, 20); (0.3%Q, 10)] 0.

(** The awards of all tiers of a table that contain [x]. *)
Definition awards (ts : list tier) (x : Q) : list Z :=
  award <$> filter (fun t => in_tier x t = true) ts.

End Score.

(** ** Text: Python [str] values and the Unicode tables they consult *)

(** The character tables of the interpreter and of the [emoji] package are
    data, not code of this program.  On ASCII the definitions below fix
    them; beyond ASCII they are left abstract. *)
Class UnicodeData := {
  uni_isdecimal : N -> bool;   (* category Nd: what [\d] accepts *)
  uni_digit : N -> Z;          (* decimal value of such a digit, used by [int] *)
  uni_isalnum : N -> bool;     (* [str.isalnum]: what [\w] accepts, besides '_' *)
  uni_tolower : N -> N;        (* simple lower-case mapping, used by [re.IGNORECASE] *)
  emoji_data : N -> bool       (* [c in emoji.EMOJI_DATA] for a single code point *)
}.

(** A table that knows nothing beyond ASCII; used to run examples. *)
Definition ascii_only : UnicodeData := {|
  uni_isdecimal := fun _ => false;
  uni_digit := fun _ => 0;
  uni_isalnum := fun _ => false;
  uni_tolower := fun c => c;
  emoji_data := fun _ => false
|}.

Module Text.
Local Open Scope N_scope.

(** A string literal of the source, as code points. *)
Definition txt (s : string) : list N := N_of_ascii <$> list_ascii_of_string s.

Definition between (lo hi c : N) : bool := (lo <=? c) && (c <=? hi).

Section WithUnicode.
Context {U : UnicodeData}.

Definition is_digit (c : N) : bool :=
  if c <? 128 then between 48 57 c else uni_isdecimal c.

Definition digit_value (c : N) : Z :=
  if c <? 128 then Z.of_N c - 48 else uni_digit c.

Definition is_word (c : N) : bool :=
  if c <? 128 then
    between 48 57 c || between 65 90 c || between 97 122 c || (c =? 95)
  else uni_isalnum c.

Definition to_lower (c : N) : N :=
  if c <? 128 then (if between 65 90 c then c + 32 else c) else uni_tolower c.

(** [int(s)] on a string of decimal digits. *)
Definition int_of_digits (s : list N) : Z :=
  fold_left (fun acc c => (10 * acc + digit_value c)%Z) s 0%Z.
End WithUnicode.

(** [str.isspace] for one character; also what [\s] accepts. *)
Definition is_space (c : N) : bool :=
  between 9 13 c || between 28 32 c || (c =? 133) || (c =? 160)
  || (c =? 5760) || between 8192 8202 c || (c =? 8232) || (c =? 8233)
  || (c =? 8239) || (c =? 8287) || (c =? 12288).

(** Line boundaries recognised by [str.splitlines]. *)
Definition is_linebreak (c : N) : bool :=
  between 10 13 c || between 28 30 c || (c =? 133) || (c =? 8232) || (c =? 8233).

(** [s.splitlines()]: [cur] holds the current line, reversed. *)
Fixpoint splitlines_from (cur : list N) (s : list N) : list (list N) :=
  match s with
  | [] => match cur with [] => [] | _ => [rev cur] end
  | c :: s' =>
      if is_linebreak c then
        rev cur ::
          match s' with
          | c' :: s'' =>
              if (c =? 13) && (c' =? 10) then splitlines_from [] s''
              else splitlines_from [] s'
          | [] => splitlines_from [] s'
          end
      else splitlines_from (c :: cur) s'
  end.

Definition splitlines (s : list N) : list (list N) := splitlines_from [] s.

(** The text made of the given lines, each ended by a line feed. *)
Definition unlines (lines : list (list N)) : list N :=
  concat ((fun l => l ++ [10]) <$> lines).

(** [s.strip()] *)
Fixpoint lstrip (s : list N) : list N :=
  match s with
  | c :: s' => if is_space c then lstrip s' else s
  | [] => []
  end.

Definition rstrip (s : list N) : list N := rev (lstrip (rev s)).

Definition strip (s : list N) : list N := rstrip (lstrip s).

(** No white space at the left end, none at the right end. *)
Definition trimmed (s : list N) : Prop :=
  from_option (fun c => is_space c = false) True (head s)
  /\ from_option (fun c => is_space c = false) True (last s).

(** Equality of strings, as a boolean. *)
Definition str_eqb (a b : list N) : bool := bool_decide (a = b).

End Text.

(** ** Regular expressions: the fragment of [re] this program uses

    Patterns are kept as syntax trees; matching is by backtracking with an
    explicit continuation, which tries alternatives left to right and
    repetitions longest first, as [re] does.  Every quantifier in the
    program's patterns ranges over a single character class. *)

Module Regex.
Import Text.
Local Open Scope N_scope.

Inductive item :=
| Chr (c : N)            (* a literal character *)
| Range (lo hi : N)      (* [lo-hi] *)
| Digit                  (* \d *)
| Space.                 (* \s *)

Inductive cls :=
| One (i : item)
| Dot                    (* . *)
| OneOf (l : list item)  (* [...] *)
| NoneOf (l : list item) (* [^...] *).

Inductive re :=
| Eps
| Cls (k : cls)
| Seq (r1 r2 : re)
| Alt (r1 r2 : re)
| Rep (k : cls) (lo : nat) (hi : option nat)   (* k{lo,hi}, greedy *)
| Grp (n : nat) (r : re)                       (* capturing group n *)
| Bnd.                                         (* \b *)

(** A literal string as a pattern. *)
Definition lit (s : string) : re :=
  foldr (fun c r => Seq (Cls (One (Chr c))) r) Eps (txt s).

Section Matching.
Context {U : UnicodeData}.
Variable ignorecase : bool.

Definition item_match (i : item) (c : N) : bool :=
  match i with
  | Chr x => if ignorecase then to_lower c =? to_lower x else c =? x
  | Range lo hi => between lo hi c
  | Digit => is_digit c
  | Space => is_space c
  end.

Definition cls_match (k : cls) (c : N) : bool :=
  match k with
  | One i => item_match i c
  | Dot => negb (c =? 10)
  | OneOf l => existsb (fun i => item_match i c) l
  | NoneOf l => negb (existsb (fun i => item_match i c) l)
  end.

(** [\b]: exactly one of the two neighbours is a word character; the
    ends of the string count as non-word. *)
Definition at_boundary (prev : option N) (s : list N) : bool :=
  xorb (from_option is_word false prev) (from_option is_word false (head s)).

Section Run.
Context {A : Type}.

Fixpoint rep (k : cls) (lo : nat) (hi : option nat)
    (prev : option N) (s : list N)
    (cont : option N -> list N -> option A) : option A :=
  let stop := match lo with O => cont prev s | S _ => None end in
  match s with
  | c :: s' =>
      if cls_match k c && negb (bool_decide (hi = Some O)) then
        match rep k (pred lo) (pred <$> hi) (Some c) s' cont with
        | Some a => Some a
        | None => stop
        end
      else stop
  | [] => stop
  end.

Fixpoint run (r : re) (prev : option N) (s : list N)
    (caps : gmap nat (list N))
    (cont : option N -> list N -> gmap nat (list N) -> option A)
    : option A :=
  match r with
  | Eps => cont prev s caps
  | Cls k =>
      match s with
      | c :: s' => if cls_match k c then cont (Some c) s' caps else None
      | [] => None
      end
  | Seq r1 r2 =>
      run r1 prev s caps (fun prev' s' caps' => run r2 prev' s' caps' cont)
  | Alt r1 r2 =>
      match run r1 prev s caps cont with
      | Some a => Some a
      | None => run r2 prev s caps cont
      end
  | Rep k lo hi =>
      rep k lo hi prev s (fun prev' s' => cont prev' s' caps)
  | Grp n r' =>
      run r' prev s caps (fun prev' s' caps' =>
        cont prev' s' (<[n := take (length s - length s') s]> caps'))
  | Bnd => if at_boundary prev s then cont prev s caps else None
  end.
End Run.

(** [pattern.match(s)]: the groups and the unconsumed rest. *)
Definition re_match (r : re) (s : list N)
  : option (gmap nat (list N) * list N) :=
  run r None s ∅ (fun _ s' caps => Some (caps, s')).

(** Does [r] match at the position whose left neighbour is [prev]? *)
Definition matches_at (r : re) (prev : option N) (s : list N) : bool :=
  bool_decide (is_Some (run r prev s ∅ (fun _ _ _ => Some tt))).

(** [pattern.search(s) is not None] *)
Fixpoint search_from (r : re) (prev : option N) (s : list N) : bool :=
  matches_at r prev s ||
  match s with
  | c :: s' => search_from r (Some c) s'
  | [] => false
  end.

Definition re_search (r : re) (s : list N) : bool := search_from r None s.

(** [len(pattern.findall(s))]: matches are taken left to right and do
    not overlap; an empty match advances by one character. *)
Fixpoint count_from (fuel : nat) (r : re) (prev : option N) (s : list N)
  : nat :=
  match fuel with
  | O => O
  | S fuel' =>
      match run r prev s ∅ (fun prev' s' _ => Some (prev', s')) with
      | Some (prev', s') =>
          if (length s' <? length s)%nat then S (count_from fuel' r prev' s')
          else match s with
               | c :: s'' => S (count_from fuel' r (Some c) s'')
               | [] => 1%nat
               end
      | None =>
          match s with
          | c :: s'' => count_from fuel' r (Some c) s''
          | [] => O
          end
      end
  end.

Definition re_count (r : re) (s : list N) : nat :=
  count_from (S (length s)) r None s.

End Matching.

(** The character to the left of the position reached after reading [mid]. *)
Definition left_of (prev : option N) (mid : list N) : option N :=
  match last mid with Some c => Some c | None => prev end.

(** The text of group [n] ([match.group(n)]). *)
Definition group (caps : gmap nat (list N)) (n : nat) : list N :=
  default [] (caps !! n).

End Regex.

(** ** Dates and times: the part of [datetime] the program relies on *)

Module Datetime.
Import Text Regex.

(** A naive [datetime] at minute precision. *)
Record datetime := Datetime {
  year : Z; month : Z; day : Z; hour : Z; minute : Z
}.

#[export] Instance datetime_eq_dec : EqDecision datetime.
Proof. solve_decision. Defined.

Definition is_leap (y : Z) : bool :=
  (y mod 4 =? 0) && (negb (y mod 100 =? 0) || (y mod 400 =? 0)).

Definition days_before_year (y : Z) : Z :=
  let y1 := y - 1 in y1 * 365 + y1 / 4 - y1 / 100 + y1 / 400.

Definition days_in_month (y m : Z) : Z :=
  if (m =? 2) && is_leap y then 29
  else nth (Z.to_nat m) [0; 31; 28; 31; 30; 31; 30; 31; 31; 30; 31; 30; 31] 0.

Definition days_before_month (y m : Z) : Z :=
  nth (Z.to_nat m) [0; 0; 31; 59; 90; 120; 151; 181; 212; 243; 273; 304; 334] 0
  + (if (2 <? m) && is_leap y then 1 else 0).

(** [date.toordinal()] *)
Definition ymd2ord (y m d : Z) : Z :=
  days_before_year y + days_before_month y m + d.

(** The constructor's range checks ([ValueError] otherwise). *)
Definition valid (t : datetime) : bool :=
  (1 <=? year t) && (year t <=? 9999)
  && (1 <=? month t) && (month t <=? 12)
  && (1 <=? day t) && (day t <=? days_in_month (year t) (month t))
  && (0 <=? hour t) && (hour t <=? 23)
  && (0 <=? minute t) && (minute t <=? 59).

(** [.date()], as the triple it compares and hashes by. *)
Definition date (t : datetime) : Z * Z * Z := (year t, month t, day t).

(** Minutes since the start of day 0 of the proleptic calendar. *)
Definition to_minutes (t : datetime) : Z :=
  ymd2ord (year t) (month t) (day t) * 1440 + hour t * 60 + minute t.

(** [a - b], a [timedelta], in minutes. *)
Definition diff_minutes (a b : datetime) : Z := to_minutes a - to_minutes b.

(** [timedelta.days]: whole days, rounding towards minus infinity. *)
Definition delta_days (delta : Z) : Z := delta / 1440.

(** Ordering of [datetime] values: field by field. *)
Definition fields (t : datetime) : list Z :=
  [year t; month t; day t; hour t; minute t].

Fixpoint lex_ltb (a b : list Z) : bool :=
  match a, b with
  | x :: a', y :: b' => (x <? y) || ((x =? y) && lex_ltb a' b')
  | [], _ :: _ => true
  | _, [] => false
  end.

Definition dt_ltb (a b : datetime) : bool := lex_ltb (fields a) (fields b).

Definition dt_max (a b : datetime) : datetime := if dt_ltb a b then b else a.
Definition dt_min (a b : datetime) : datetime := if dt_ltb b a then b else a.

(** *** [datetime.strptime] *)

(** A format string, directive by directive. *)
Inductive directive :=
| F_d | F_m | F_Y | F_y | F_I | F_M | F_p   (* %d %m %Y %y %I %M %p *)
| F_ws                                      (* a run of white space *)
| F_chr (c : string).                       (* any other text *)

(** Group numbers standing for the named groups of the format regex. *)
Definition g_d := 1%nat.
Definition g_m := 2%nat.
Definition g_Y := 3%nat.
Definition g_y := 4%nat.
Definition g_I := 5%nat.
Definition g_M := 6%nat.
Definition g_p := 7%nat.

Definition digit_in (lo hi : string) : re :=
  match txt lo, txt hi with
  | [a], [b] => Cls (One (Range a b))
  | _, _ => Eps
  end.
Definition any_digit : re := Cls (One Digit).
Definition alts (rs : list re) (last : re) : re := foldr Alt last rs.

(** The regex each directive stands for (class [TimeRE]). *)
Definition directive_re (f : directive) : re :=
  match f with
  | F_d => Grp g_d (alts [Seq (lit "3") (digit_in "0" "1");
                          Seq (digit_in "1" "2") any_digit;
                          Seq (lit "0") (digit_in "1" "9");
                          digit_in "1" "9"]
                         (Seq (lit " ") (digit_in "1" "9")))
  | F_m => Grp g_m (alts [Seq (lit "1") (digit_in "0" "2");
                          Seq (lit "0") (digit_in "1" "9")]
                         (digit_in "1" "9"))
  | F_Y => Grp g_Y (Seq any_digit (Seq any_digit (Seq any_digit any_digit)))
  | F_y => Grp g_y (Seq any_digit any_digit)
  | F_I => Grp g_I (alts [Seq (lit "1") (digit_in "0" "2");
                          Seq (lit "0") (digit_in "1" "9")]
                         (digit_in "1" "9"))
  | F_M => Grp g_M (Alt (Seq (digit_in "0" "5") any_digit) any_digit)
  | F_p => Grp g_p (Alt (lit "am") (lit "pm"))
  | F_ws => Rep (One Space) 1 None
  | F_chr c => lit c
  end.

Definition format_re (fmt : list directive) : re :=
  foldr (fun f r => Seq (directive_re f) r) Eps fmt.

Section Strptime.
Context {U : UnicodeData}.

(** [int(s)] for the group texts above (white space is stripped). *)
Definition py_int (s : list N) : Z := int_of_digits (strip s).

Definition field (caps : gmap nat (list N)) (g : nat) (dflt : Z) : Z :=
  match caps !! g with Some s => py_int s | None => dflt end.

Definition strptime (data_string : list N) (fmt : list directive)
  : option datetime :=
  match re_match true (format_re fmt) data_string with
  | None => None                       (* does not match format *)
  | Some (caps, rest) =>
      match rest with
      | _ :: _ => None                 (* unconverted data remains *)
      | [] =>
          let year :=
            match caps !! g_Y, caps !! g_y with
            | Some s, _ => py_int s
            | None, Some s =>
                let y := py_int s in
                if y <=? 68 then y + 2000 else y + 1900
            | None, None => 1900
            end in
          let month := field caps g_m 1 in
          let day := field caps g_d 1 in
          let hour :=
            match caps !! g_I with
            | None => 0
            | Some s =>
                let hour := py_int s in
                match to_lower <$> default [] (caps !! g_p) with
                | [] | [97; 109]%N =>            (* none, or "am" *)
                    if hour =? 12 then 0 else hour
                | _ =>                           (* "pm" *)
                    if hour =? 12 then hour else hour + 12
                end
            end in
          let minute := field caps g_M 0 in
          let t := Datetime year month day hour minute in
          if valid t then Some t else None
      end
  end.
End Strptime.

End Datetime.

(** ** Transcript parser ([parse_chat], app.py lines 65-85) *)

Module Parser.
Import Text Regex Datetime.

(** One row of the [DataFrame]: columns [timestamp], [user], [message]. *)
Record row := Row {
  timestamp : datetime;
  user : list N;
  message : list N
}.

#[export] Instance row_eq_dec : EqDecision row.
Proof. solve_decision. Defined.

Definition chr (a : ascii) : item := Chr (N_of_ascii a).
Definition seqs (rs : list re) : re := foldr Seq Eps rs.
Definition digits (lo hi : nat) : re := Rep (One Digit) lo (Some hi).

(** The line pattern.  Its three groups are
    - 1: [\d{1,2}/\d{1,2}/\d{2,4}, \d{1,2}:\d{2}\s?[apAPm\s]*]
    - 2: [[^:]+]
    - 3: [.*]
    with [ - ] between the first two and [: ] between the last two. *)
Definition pattern : re :=
  seqs [
    Grp 1 (seqs [digits 1 2; lit "/"; digits 1 2; lit "/"; digits 2 4;
                 lit ", "; digits 1 2; lit ":"; digits 2 2;
                 Rep (One Space) 0 (Some 1%nat);
                 Rep (OneOf [chr "a"; chr "p"; chr "A"; chr "P"; chr "m"; Space])
                     0 None]);
    lit " - ";
    Grp 2 (Rep (NoneOf [chr ":"]) 1 None);
    lit ": ";
    Grp 3 (Rep Dot 0 None)
  ].

(** ['%d/%m/%Y, %I:%M %p'] *)
Definition day_first : list directive :=
  [F_d; F_chr "/"; F_m; F_chr "/"; F_Y; F_chr ","; F_ws;
   F_I; F_chr ":"; F_M; F_ws; F_p].

(** ['%m/%d/%y, %I:%M %p'] *)
Definition month_first : list directive :=
  [F_m; F_chr "/"; F_d; F_chr "/"; F_y; F_chr ","; F_ws;
   F_I; F_chr ":"; F_M; F_ws; F_p].

Definition media_omitted : list N := txt "<Media omitted>".

Section WithUnicode.
Context {U : UnicodeData}.

(** A line is accepted when it matches the line pattern and its date and
    time, the pattern's first group, parse under one of the two formats. *)
Definition timestamp_ok (date_str : list N) : bool :=
  bool_decide (is_Some (strptime date_str day_first))
  || bool_decide (is_Some (strptime date_str month_first)).

Definition accepted (line : list N) : bool :=
  match re_match false pattern line with
  | Some (groups, _) => timestamp_ok (group groups 1)
  | None => false
  end.

(** What one turn of the loop makes of a line: the row it appends, or
    nothing when the pattern or both timestamp formats reject it. *)
Definition parse_line (line : list N) : option row :=
  match re_match false pattern line with
  | Some (groups, _) =>
      let date_str := group groups 1 in
      let user := strip (group groups 2) in
      let message := group groups 3 in
      match strptime date_str day_first with
      | Some timestamp => Some (Row timestamp user message)
      | None =>
          match strptime date_str month_first with
          | Some timestamp => Some (Row timestamp user message)
          | None => None                                  (* continue *)
          end
      end
  | None => None
  end.

(** The body of [for line in lines]. *)
Definition step (data : list row) (line : list N) : list row :=
  match parse_line line with
  | Some r => data ++ [r]
  | None => data
  end.

(** The whole loop: [data] once every line has been seen. *)
Definition collect (lines : list (list N)) : list row :=
  fold_left step lines [].

(** [parse_chat], given the decoded text of the upload.  [None] is the
    failure branch (an error is shown and [None] returned). *)
Definition parse_chat (text : list N) : option (list row) :=
  let lines := splitlines text in
  let data := collect lines in
  match data with
  | [] => None
  | _ => Some (filter (fun r => message r <> media_omitted) data)
  end.
End WithUnicode.

End Parser.

(** ** Adjacent rows

    Both analyses that look at timing compare each row with the one just
    before it.  The adjacent pairs [(earlier, later)] of a list: *)

Definition adjacent {A : Type} (l : list A) : list (A * A) := zip l (tail l).

(** ** Feature extractor ([get_base_metrics], app.py lines 87-102) *)

Module Metrics.
Import Text Datetime Parser.

Definition qnat (n : nat) : Q := inject_Z (Z.of_nat n).

(** [sum(xs)] *)
Definition qsum (xs : list Q) : Q := fold_left Qplus xs 0%Q.

(** [df['timestamp'].dt.date.nunique()] *)
Definition chat_days (df : list row) : nat :=
  length (remove_dups ((fun r => date (timestamp r)) <$> df)).

(** [(df['timestamp'].max() - df['timestamp'].min()).days + 1]; on an
    empty frame both extremes are missing and so is the result. *)
Definition total_days (df : list row) : option Z :=
  match timestamp <$> df with
  | [] => None
  | t :: ts =>
      Some (delta_days (diff_minutes (fold_left dt_max ts t) (fold_left dt_min ts t)) + 1)
  end.

(** The day-span as the specification words it: [last_day - first_day + 1]
    in calendar days, over the whole frame. *)
Definition day_ordinal (t : datetime) : Z := ymd2ord (year t) (month t) (day t).

Definition calendar_span (df : list row) : option Z :=
  match df, last df with
  | first :: _, Some final =>
      Some (day_ordinal (timestamp final) - day_ordinal (timestamp first) + 1)
  | _, _ => None
  end.

(** A qualifying reply pair, in the specification's words: the counterpart
    speaks immediately before the focal user and the gap is under 24 hours
    (1440 minutes). *)
Definition qualifies (user other_user : list N) (pc : row * row) : Prop :=
  Parser.user pc.2 = user /\ Parser.user pc.1 = other_user
  /\ diff_minutes (timestamp pc.2) (timestamp pc.1) < 1440.

(** The loop that collects reply times, index by index. *)
Definition reply_times (df : list row) (user other_user : list N) : list Q :=
  fold_left
    (fun reply_times i =>
       match df !! i, df !! (i - 1)%nat with
       | Some cur, Some prev =>
           if bool_decide (Parser.user cur = user)
              && bool_decide (Parser.user prev = other_user) then
             let time_diff :=
               inject_Z (diff_minutes (timestamp cur) (timestamp prev)) in
             if Qltb time_diff (inject_Z (60 * 24)) then reply_times ++ [time_diff]
             else reply_times
           else reply_times
       | _, _ => reply_times
       end)
    (seq 1 (length df - 1)) [].

Section WithUnicode.
Context {U : UnicodeData}.

Definition get_base_metrics (df : list row) (user other_user : list N)
  : Q * Q * Q * Q * list Q :=
  let reply_times := reply_times df user other_user in
  let T :=
    match reply_times with
    | [] => 999%Q
    | _ => (qsum reply_times / qnat (length reply_times))%Q
    end in
  let user_messages :=
    message <$> filter (fun r => Parser.user r = user) df in
  let emoji_count :=
    length (filter (fun c => emoji_data c = true) (concat user_messages)) in
  let e :=
    match user_messages with
    | [] => 0%Q
    | _ => (qnat emoji_count / qnat (length user_messages))%Q
    end in
  let m :=
    if (0 <? length df)%nat then
      (qnat (length (filter (fun r => Parser.user r = user) df))
       / qnat (length df))%Q
    else 0%Q in
  let chat_days := chat_days df in
  let d :=
    match total_days df with
    | Some total_days =>
        if 0 <? total_days then (qnat chat_days / inject_Z total_days)%Q
        else 0%Q
    | None => 0%Q
    end in
  (T, e, m, d, reply_times).
End WithUnicode.

End Metrics.

(** ** Conversation analyzer (app.py lines 104-115 and 125-133) *)

Module Dynamics.
Import Text Regex Datetime Parser Metrics.

(** [r'\?'] *)
Definition question_mark : re := Cls (One (chr "?")).

(** [r'\bw\b'] *)
Definition whole_word (w : string) : re := seqs [Bnd; lit w; Bnd].

Definition lexicon : list string := ["ok"; "k"; "hmm"; "lol"; "haha"; "yeah"]%string.

Definition low_effort_replies : list re := whole_word <$> lexicon.

(** ['|'.join(patterns)] *)
Fixpoint join (rs : list re) : re :=
  match rs with
  | [] => Eps
  | [r] => r
  | r :: rs' => Alt r (join rs')
  end.

Record dynamics := Dynamics {
  q_count : nat * nat;
  le_count : nat * nat;
  avg_len : option Q * option Q   (* [None]: the mean of no values *)
}.

(** [Series.mean()] of the lengths *)
Definition mean_len (msgs : list (list N)) : option Q :=
  match msgs with
  | [] => None
  | _ => Some (qnat (list_sum (length <$> msgs)) / qnat (length msgs))%Q
  end.

Section WithUnicode.
Context {U : UnicodeData}.

(** The number of question marks in a message. *)
Definition question_marks (msg : list N) : nat :=
  length (filter (fun c => c = 63%N) msg).

(** In the specification's words: [w] occurs in the message as a whole
    word, without regard to case.  The occurrence [mid] lower-cases to
    [w] and has a word boundary on either side. *)
Definition occurs_as_word (w msg : list N) : Prop :=
  exists pre mid post,
    msg = pre ++ mid ++ post
    /\ to_lower <$> mid = w
    /\ at_boundary (last pre) (mid ++ post) = true
    /\ at_boundary (last mid) post = true.

Definition low_effort (msg : list N) : Prop :=
  exists w, w ∈ lexicon /\ occurs_as_word (txt w) msg.

(** [.str.count(r'\?').sum()] *)
Definition count_questions (msgs : list (list N)) : nat :=
  list_sum (re_count false question_mark <$> msgs).

(** [.str.contains(pat, case=False).sum()] *)
Definition count_low_effort (msgs : list (list N)) : nat :=
  length (filter (fun msg => re_search true (join low_effort_replies) msg = true) msgs).

Definition analyze_chat_dynamics (df : list row) (user1 user2 : list N)
  : dynamics :=
  let user1_df := filter (fun r => user r = user1) df in
  let user2_df := filter (fun r => user r = user2) df in
  let q1_count := count_questions (message <$> user1_df) in
  let q2_count := count_questions (message <$> user2_df) in
  let le1_count := count_low_effort (message <$> user1_df) in
  let le2_count := count_low_effort (message <$> user2_df) in
  let avg_len1 := mean_len (message <$> user1_df) in
  let avg_len2 := mean_len (message <$> user2_df) in
  Dynamics (q1_count, q2_count) (le1_count, le2_count) (avg_len1, avg_len2).
End WithUnicode.

End Dynamics.

Module Starters.
Import Text Datetime Parser.

(** [pd.Timedelta(hours=6)], in minutes *)
Definition time_threshold : Z := 6 * 60.

(** A silence of more than six hours between a row and the next. *)
Definition long_gap (pc : row * row) : Prop :=
  6 * 60 < diff_minutes (timestamp pc.2) (timestamp pc.1).

#[export] Instance long_gap_dec pc : Decision (long_gap pc).
Proof. unfold long_gap. apply _. Defined.

(** The adjacent pairs separated by such a silence: each opens a new
    conversation. *)
Definition new_conversations (df : list row) : list (row * row) :=
  filter long_gap (adjacent df).

(** The list [starters] when the function returns. *)
Definition starters (df : list row) : list (list N) :=
  match df with
  | [] => []
  | first :: _ =>
      fold_left
        (fun starters i =>
           match df !! i, df !! (i - 1)%nat with
           | Some cur, Some prev =>
               if time_threshold <? diff_minutes (timestamp cur) (timestamp prev)
               then starters ++ [user cur]
               else starters
           | _, _ => starters
           end)
        (seq 1 (length df - 1)) [user first]
  end.

(** [pd.Series(xs).value_counts()]: each distinct value with the number
    of times it occurs. *)
Definition value_counts (xs : list (list N)) : gmap (list N) nat :=
  fold_left (fun m x => <[x := S (default O (m !! x))]> m) xs ∅.

Definition analyze_starters (df : list row) : gmap (list N) nat :=
  value_counts (starters df).

(** The sum of a [Series] of counts. *)
Definition total (m : gmap (list N) nat) : nat :=
  map_fold (fun _ n acc => (n + acc)%nat) O m.

End Starters.

(** ** Status classifier ([get_relationship_status], app.py lines 117-123) *)

Module Status.

(** The six titles, named by their words (the decorations around them are
    left out). *)
Inductive title :=
| Soulmates | PowerCouple | Besties | SlowBurn | JustAcquaintances | GhostTown.

#[export] Instance title_eq_dec : EqDecision title.
Proof. solve_decision. Defined.

(** Title, description and status type. *)
Definition get_relationship_status (score : Q) : title * string * string :=
  if Qleb 90 score then
    (Soulmates, "Your connection is off the charts!", "success")%string
  else if Qleb 75 score && Qltb score 90 then
    (PowerCouple, "You have a fantastic dynamic.", "success")%string
  else if Qleb 60 score && Qltb score 75 then
    (Besties, "This is a strong, healthy connection.", "info")%string
  else if Qleb 45 score && Qltb score 60 then
    (SlowBurn, "There's potential, but it's a bit lukewarm.", "info")%string
  else if Qleb 30 score && Qltb score 45 then
    (JustAcquaintances, "The vibe is pretty casual and infrequent.", "warning")%string
  else
    (GhostTown, "Communication is sparse and heavily imbalanced.", "error")%string.

(** The place of a title on the scale, best first. *)
Definition rank (t : title) : nat :=
  match t with
  | Soulmates => 0 | PowerCouple => 1 | Besties => 2
  | SlowBurn => 3 | JustAcquaintances => 4 | GhostTown => 5
  end.

(** How [main] shows the status: [st.success], [st.info], or [st.warning]
    for every other status type. *)
Inductive banner := Success | Info | Warning.

Definition show_status (status_type : string) : banner :=
  if String.eqb status_type "success" then Success
  else if String.eqb status_type "info" then Info
  else Warning.

End Status.

(** ** The analysis [main] runs on a parsed frame (app.py lines 145-163) *)

Module Analysis.
Import Text Datetime Parser Metrics Score Status.

(** [Series.unique()]: the distinct values in order of first appearance. *)
Fixpoint unique (xs : list (list N)) : list (list N) :=
  match xs with
  | [] => []
  | x :: xs' => x :: filter (fun y => y <> x) (unique xs')
  end.

(** [users = df['user'].unique().tolist()] *)
Definition users (df : list row) : list (list N) := unique (user <$> df).

Record report := Report {
  lovescore1 : Z; lovescore2 : Z;
  friendship_score1 : Z; friendship_score2 : Z;
  avg_lovescore : Q;
  status : title * string * string
}.

Section WithUnicode.
Context {U : UnicodeData}.

(** The scores computed once the button is pressed. *)
Definition scores (df : list row) (user1 user2 : list N) : report :=
  let '(T1, e1, m1, d1, rt1) := get_base_metrics df user1 user2 in
  let '(T2, e2, m2, d2, rt2) := get_base_metrics df user2 user1 in
  let '(lovescore1, R1, E1, M1, C1) := calculate_lovescore T1 e1 m1 d1 in
  let '(lovescore2, R2, E2, M2, C2) := calculate_lovescore T2 e2 m2 d2 in
  let friendship_score1 := calculate_friendship_score T1 e1 m1 d1 in
  let friendship_score2 := calculate_friendship_score T2 e2 m2 d2 in
  let avg_lovescore := ((inject_Z lovescore1 + inject_Z lovescore2) / 2)%Q in
  Report lovescore1 lovescore2 friendship_score1 friendship_score2
    avg_lovescore (get_relationship_status avg_lovescore).

(** What [main] does with an upload, up to the point where results are
    drawn: stop on a parse failure, stop unless there are exactly two
    authors, stop when the same user is selected twice, else analyse. *)
Inductive outcome :=
| ParseError            (* "Could not parse the chat file." *)
| NotOneOnOne           (* "This analysis works best for one-on-one chats." *)
| SameUser              (* "Please select two different users." *)
| Analysed (r : report).

Definition main (text : list N) (user1 user2 : list N) : outcome :=
  match parse_chat text with
  | None => ParseError
  | Some df =>
      if negb (length (users df) =? 2)%nat then NotOneOnOne
      else if bool_decide (user1 = user2) then SameUser
      else Analysed (scores df user1 user2)
  end.
End WithUnicode.

End Analysis.

(** ** Sample transcripts

    Small inputs on which the statements below are exercised. *)

Module Sample.
Import Text Datetime Parser.

Definition alice : list N := txt "Alice".
Definition bob : list N := txt "Bob".

(** A text from its lines, each ended by a line feed. *)
Definition text_of (lines : list string) : list N :=
  concat ((fun l => txt l ++ [10%N]) <$> lines).

(** Bob writes; Alice answers two days later and adds a line. *)
Definition late_answer : list row :=
  [Row (Datetime 2023 1 1 10 0) bob (txt "hi");
   Row (Datetime 2023 1 3 10 0) alice (txt "sorry, was away");
   Row (Datetime 2023 1 3 10 5) alice (txt "how are you?")].

(** Two messages two hours apart, either side of midnight. *)
Definition across_midnight : list string :=
  ["1/1/23, 11:00 pm - Alice: hi";
   "1/2/23, 1:00 am - Bob: yo"]%string.

(** A transcript whose only message line is a media placeholder. *)
Definition only_media : list string :=
  ["Messages are end-to-end encrypted.";
   "1/2/23, 9:15 pm - Bob: <Media omitted>"]%string.

(** A transcript with a continuation line and a clock the formats reject. *)
Definition with_noise : list string :=
  ["25/12/2023, 10:05 pm - Alice: merry christmas";
   "and a happy new year";
   "25/12/2023, 22:07 - Bob: no marker, dropped";
   "25/12/2023, 10:09 pm - Bob: thanks, you too"]%string.

(** A chat of two: Alice's only message has two question marks. *)
Definition eager_lines : list string :=
  ["1/1/23, 10:00 am - Alice: really??";
   "1/1/23, 10:01 am - Bob: yes"]%string.

Definition eager : list row :=
  [Row (Datetime 2023 1 1 10 0) alice (txt "really??");
   Row (Datetime 2023 1 1 10 1) bob (txt "yes")].

End Sample.

(** * Properties *)

(** ** Rational comparisons *)

Lemma Qltb_spec (x y : Q) : reflect (x < y)%Q (Qltb x y).
Proof.
  unfold Qltb. destruct (x ?= y)%Q eqn:E; constructor.
  - apply Qeq_alt in E. rewrite E. apply Qlt_irrefl.
  - now apply Qlt_alt.
  - apply Qgt_alt in E. intros H. apply (Qlt_irrefl x). eapply Qlt_trans; eauto.
Qed.

Lemma Qltb_lt (x y : Q) : Qltb x y = true <-> (x < y)%Q.
Proof. destruct (Qltb_spec x y); split; intros; try done. Qed.

Lemma Qltb_ge (x y : Q) : Qltb x y = false <-> (y <= x)%Q.
Proof.
  destruct (Qltb_spec x y) as [H|H]; split; intros; try done.
  - exfalso. eapply Qlt_not_le; eauto.
  - now apply Qnot_lt_le.
Qed.

Lemma Qleb_le (x y : Q) : Qleb x y = true <-> (x <= y)%Q.
Proof. unfold Qleb. rewrite negb_true_iff. apply Qltb_ge. Qed.


(** ** Scoring engine *)

Section ScoreFacts.
Import Score.

(** Decide every threshold test on [x] that occurs in the goal. *)
Ltac tiers x :=
  repeat match goal with
  | |- context [Qltb x ?b] => destruct (Qltb_spec x b)
  | |- context [Qltb ?b x] => destruct (Qltb_spec b x)
  end;
  try reflexivity; try lia; try (exfalso; lra).

Ltac table x :=
  unfold awards, in_tier, Qleb, Qgtb; cbn -[Qltb];
  rewrite ?filter_cons, ?filter_nil; cbn -[Qltb];
  unfold Qgtb; tiers x.

Lemma love_R_one_tier T : awards love_R_tiers T = [love_R T].
Proof. unfold love_R. table T. Qed.

Lemma love_E_one_tier e : awards love_E_tiers e = [love_E e].
Proof. unfold love_E. table e. Qed.

Lemma love_M_one_tier m : awards love_M_tiers m = [love_M m].
Proof. unfold love_M. table m. Qed.

Lemma love_C_one_tier d : awards love_C_tiers d = [love_C d].
Proof. unfold love_C. table d. Qed.

Lemma friendship_R_one_tier T : awards friendship_R_tiers T = [friendship_R T].
Proof. unfold friendship_R. table T. Qed.

Lemma friendship_E_one_tier e : awards friendship_E_tiers e = [friendship_E e].
Proof. unfold friendship_E. table e. Qed.

Lemma friendship_M_one_tier m : awards friendship_M_tiers m = [friendship_M m].
Proof. unfold friendship_M. table m. Qed.

Lemma friendship_C_one_tier d : awards friendship_C_tiers d = [friendship_C d].
Proof. unfold friendship_C. table d. Qed.

(** The tables are the ones the specification lists. *)
Example love_R_tiers_listed :
  love_R_tiers =
    [Tier None (Some (2%Q, false)) 25;
     Tier (Some (2%Q, true)) (Some (5%Q, false)) 15;
     Tier (Some (5%Q, true)) (Some (10%Q, false)) 10;
     Tier (Some (10%Q, true)) (Some (30%Q, false)) 5;
     Tier (Some (30%Q, true)) None (-15)].
Proof. reflexivity. Qed.

(** C1: both scoring functions are defined on every rational input, each
    of their four sub-scores is the award of exactly one tier of its table
    (the list of awards of the tiers containing the input is a singleton),
    and at the threshold [T = 2] the love response-speed sub-score is the
    15 of the [T < 5] tier, not the 25 of the [T < 2] tier. *)
Theorem scores_one_tier_each (T e m d : Q) :
  (exists R E M C,
      calculate_lovescore T e m d = (50 + R + E + M + C, R, E, M, C)
      /\ awards love_R_tiers T = [R] /\ awards love_E_tiers e = [E]
      /\ awards love_M_tiers m = [M] /\ awards love_C_tiers d = [C])
  /\ (exists R E M C,
      calculate_friendship_score T e m d = 40 + R + E + M + C
      /\ awards friendship_R_tiers T = [R] /\ awards friendship_E_tiers e = [E]
      /\ awards friendship_M_tiers m = [M] /\ awards friendship_C_tiers d = [C])
  /\ (exists total E M C,
      calculate_lovescore 2.0 e m d = (total, 15, E, M, C))
  /\ awards love_R_tiers 2.0 = [15].
Proof.
  split; [|split; [|split]].
  - exists (love_R T), (love_E e), (love_M m), (love_C d).
    split; [reflexivity|].
    auto using love_R_one_tier, love_E_one_tier, love_M_one_tier, love_C_one_tier.
  - exists (friendship_R T), (friendship_E e), (friendship_M m), (friendship_C d).
    split; [reflexivity|].
    auto using friendship_R_one_tier, friendship_E_one_tier,
      friendship_M_one_tier, friendship_C_one_tier.
  - eexists _, _, _, _. reflexivity.
  - reflexivity.
Qed.

Lemma love_R_slow T : (30 <= T)%Q -> love_R T = -15.
Proof. intros H. unfold love_R. tiers T. Qed.

Lemma love_R_lowest T : -15 <= love_R T.
Proof. unfold love_R. tiers T. Qed.

Lemma friendship_R_lowest T : 0 <= friendship_R T.
Proof. unfold friendship_R. tiers T. Qed.

Lemma love_E_nonneg e : 0 <= love_E e.
Proof. unfold love_E, Qgtb. tiers e. Qed.

Lemma love_C_nonneg d : 0 <= love_C d.
Proof. unfold love_C, Qgtb. tiers d. Qed.

Lemma love_M_floor m : -10 <= love_M m.
Proof. unfold love_M, Qgtb. tiers m. Qed.

Lemma love_M_low_share m : (m <= 0.25)%Q -> love_M m = -10.
Proof. intros H. unfold love_M, Qgtb. tiers m. Qed.

Lemma friendship_R_bands T :
  friendship_R T =
    if Qltb T 5 then 20 else if Qltb T 15 then 10 else if Qltb T 60 then 5 else 0.
Proof. reflexivity. Qed.

Lemma friendship_floor T e m d :
  -5 <= friendship_R T /\ -5 <= friendship_E e
  /\ -5 <= friendship_M m /\ -5 <= friendship_C d.
Proof.
  repeat split.
  - unfold friendship_R. tiers T.
  - unfold friendship_E, Qgtb. tiers e.
  - unfold friendship_M, Qgtb. tiers m.
  - unfold friendship_C, Qgtb. tiers d.
Qed.

(** C9: the love score is 50 plus its four sub-scores; its emoji and
    day-consistency sub-scores are never negative; its message-share
    sub-score is never below -10 and is -10 for every share up to 0.25;
    its response-speed sub-score is -15 whenever [T >= 30].  The
    friendship score is 40 plus its four sub-scores, the chains
    [friendship_R], [friendship_E], [friendship_M] and [friendship_C] of
    the code; its reply-time chain awards 20 below 5 minutes, 10 from 5 to
    below 15, 5 from 15 to below 60 and 0 from 60 on, and none of the four
    is ever below -5. *)
Theorem score_formulas (T e m d : Q) :
  (exists R E M C,
      calculate_lovescore T e m d = (50 + R + E + M + C, R, E, M, C)
      /\ 0 <= E /\ 0 <= C /\ -10 <= M
      /\ ((m <= 0.25)%Q -> M = -10)
      /\ ((30 <= T)%Q -> R = -15))
  /\ (calculate_friendship_score T e m d
        = 40 + friendship_R T + friendship_E e + friendship_M m + friendship_C d
      /\ ((T < 5)%Q -> friendship_R T = 20)
      /\ ((5 <= T)%Q -> (T < 15)%Q -> friendship_R T = 10)
      /\ ((15 <= T)%Q -> (T < 60)%Q -> friendship_R T = 5)
      /\ ((60 <= T)%Q -> friendship_R T = 0)
      /\ -5 <= friendship_R T /\ -5 <= friendship_E e
      /\ -5 <= friendship_M m /\ -5 <= friendship_C d).
Proof.
  split.
  - exists (love_R T), (love_E e), (love_M m), (love_C d).
    split; [reflexivity|].
    auto 10 using love_E_nonneg, love_C_nonneg, love_M_floor,
      love_M_low_share, love_R_slow.
  - destruct (friendship_floor T e m d) as (? & ? & ? & ?).
    split; [reflexivity|].
    repeat split; try assumption; intros; unfold friendship_R; tiers T.
Qed.

End ScoreFacts.

(** ** Index loops

    The loops [for i in range(1, len(df))] read rows [i] and [i-1].  They
    visit exactly the adjacent pairs of the frame, in order. *)

Section Loops.
Context {A B : Type}.

Lemma loop_collect (body : list B -> nat -> list B) (sel : nat -> option B) :
  (forall acc i, body acc i = acc ++ option_list (sel i)) ->
  forall l init, fold_left body l init = init ++ omap sel l.
Proof.
  intros Hbody l. induction l as [|i l IH]; intros init; simpl.
  - by rewrite app_nil_r.
  - rewrite IH, Hbody. destruct (sel i); simpl.
    + by rewrite <- app_assoc.
    + by rewrite app_nil_r.
Qed.

Lemma omap_pairs_cons (g : A -> A -> option B) (a : A) (tl : list A) :
  omap (fun i => match (a :: tl) !! i, (a :: tl) !! (i - 1)%nat with
                 | Some cur, Some prev => g prev cur
                 | _, _ => None
                 end) (seq 1 (length tl))
  = omap (fun pc => g pc.1 pc.2) (zip (a :: tl) tl).
Proof.
  revert a. induction tl as [|b tl IH]; intros a; [done|].
  cbn [length seq].
  change (zip (a :: b :: tl) (b :: tl)) with ((a, b) :: zip (b :: tl) tl).
  change (omap ?f ((a, b) :: ?l)) with
    (match f (a, b) with Some y => y :: omap f l | None => omap f l end).
  rewrite <- (IH b). clear IH.
  change (omap ?f (1%nat :: ?l)) with
    (match f 1%nat with Some y => y :: omap f l | None => omap f l end).
  cbn [lookup list_lookup Nat.sub fst snd].
  destruct (g a b); [f_equal|];
    rewrite <- fmap_S_seq; apply list_omap_ext, Forall2_fmap_l,
      Forall_Forall2_diag, Forall_forall; intros i Hi%elem_of_seq;
    (destruct i as [|i]; [lia|]); simpl; by rewrite Nat.sub_0_r.
Qed.

(** Reading rows [i] and [i-1] for [i = 1 .. len-1] is reading the
    adjacent pairs. *)
Lemma omap_pairs (g : A -> A -> option B) (l : list A) :
  omap (fun i => match l !! i, l !! (i - 1)%nat with
                 | Some cur, Some prev => g prev cur
                 | _, _ => None
                 end) (seq 1 (length l - 1))
  = omap (fun pc => g pc.1 pc.2) (adjacent l).
Proof.
  destruct l as [|a tl]; [done|].
  unfold adjacent. cbn [length tail]. rewrite Nat.sub_succ, Nat.sub_0_r.
  apply omap_pairs_cons.
Qed.

Lemma length_filter_fmap_filter {C : Type} (f : A -> C)
    (P : A -> Prop) (Q : C -> Prop)
    `{!forall x, Decision (P x)} `{!forall y, Decision (Q y)} (l : list A) :
  length (filter Q (f <$> filter P l))
  = length (filter (fun x => P x /\ Q (f x)) l).
Proof.
  induction l as [|x l IH]; [done|].
  rewrite !filter_cons. destruct (decide (P x)) as [HP|HP].
  - csimpl. rewrite filter_cons. destruct (decide (Q (f x))) as [HQ|HQ].
    + rewrite decide_True by done. simpl. by f_equal.
    + by rewrite decide_False by tauto.
  - by rewrite decide_False by tauto.
Qed.

End Loops.

(** ** Feature extractor *)

Section MetricsFacts.
Import Score Text Datetime Parser Metrics.

Lemma Qltb_inject_Z (a b : Z) : Qltb (inject_Z a) (inject_Z b) = (a <? b).
Proof.
  destruct (Qltb_spec (inject_Z a) (inject_Z b)) as [H|H];
    rewrite <- Zlt_Qlt in H; symmetry.
  - by apply Z.ltb_lt.
  - by apply Z.ltb_ge, Z.nlt_ge.
Qed.

(** The reply-time loop visits the adjacent pairs and keeps the gap of
    each qualifying one. *)
Lemma reply_times_pairs (df : list row) (user other_user : list N) :
  reply_times df user other_user
  = omap (fun pc =>
            if bool_decide (Parser.user pc.2 = user)
               && bool_decide (Parser.user pc.1 = other_user)
               && (diff_minutes (timestamp pc.2) (timestamp pc.1) <? 1440)
            then Some (inject_Z (diff_minutes (timestamp pc.2) (timestamp pc.1)))
            else None)
         (adjacent df).
Proof.
  unfold reply_times.
  etrans; [|exact (omap_pairs (fun prev cur =>
    if bool_decide (Parser.user cur = user)
       && bool_decide (Parser.user prev = other_user)
       && (diff_minutes (timestamp cur) (timestamp prev) <? 1440)
    then Some (inject_Z (diff_minutes (timestamp cur) (timestamp prev)))
    else None) df)].
  rewrite <- (app_nil_l (omap _ _)). apply loop_collect.
  intros acc i. destruct (df !! i) as [cur|], (df !! (i - 1)%nat) as [prev|];
    rewrite ?app_nil_r; try done.
  rewrite Qltb_inject_Z. change (60 * 24) with 1440.
  destruct (bool_decide _ && bool_decide _); simpl; [|by rewrite app_nil_r].
  destruct (_ <? 1440); simpl; [done|by rewrite app_nil_r].
Qed.

Lemma no_qualifying_no_samples (df : list row) (user other_user : list N) :
  Forall (fun pc => ~ qualifies user other_user pc) (adjacent df) ->
  reply_times df user other_user = [].
Proof.
  rewrite reply_times_pairs. induction 1 as [|pc l Hpc _ IH]; [done|].
  csimpl. rewrite IH.
  destruct (bool_decide _ && bool_decide _ && _) eqn:E; [|done].
  exfalso. apply Hpc. apply andb_prop in E as [E E3]. apply andb_prop in E as [E1 E2].
  apply bool_decide_eq_true in E1, E2. apply Z.ltb_lt in E3. done.
Qed.

(** C4: when no adjacent pair qualifies as a reply (counterpart first,
    focal user next, less than 1440 minutes apart), the extractor returns
    [T = 999] with no samples; for [T = 999] the love formula awards its
    lowest response-speed sub-score, -15, and the friendship formula its
    lowest, 0. *)
Theorem no_replies_sentinel `{UnicodeData} (df : list row) (user other_user : list N) :
  Forall (fun pc => ~ qualifies user other_user pc) (adjacent df) ->
  (exists e m d, get_base_metrics df user other_user = (999%Q, e, m, d, []))
  /\ (forall e m d, exists total E M C,
         calculate_lovescore 999 e m d = (total, -15, E, M, C))
  /\ (forall e m d,
         calculate_friendship_score 999 e m d
         = 40 + 0 + friendship_E e + friendship_M m + friendship_C d)
  /\ (forall T, -15 <= love_R T /\ 0 <= friendship_R T).
Proof.
  intros Hnone. split; [|split; [|split]].
  - unfold get_base_metrics. rewrite (no_qualifying_no_samples _ _ _ Hnone).
    eexists _, _, _. reflexivity.
  - intros e m d. eexists _, _, _, _. reflexivity.
  - reflexivity.
  - intros T. split; [apply love_R_lowest | apply friendship_R_lowest].
Qed.

End MetricsFacts.

(** The extractor on [late_answer], Alice replying to Bob: the only pair
    with Bob first is 2880 minutes apart. *)
Lemma no_replies_sentinel_witness :
  (exists e m d,
      @Metrics.get_base_metrics ascii_only Sample.late_answer Sample.alice Sample.bob
      = (999%Q, e, m, d, []))
  /\ (forall e m d, exists total E M C,
         Score.calculate_lovescore 999 e m d = (total, -15, E, M, C))
  /\ (forall e m d,
         Score.calculate_friendship_score 999 e m d
         = 40 + 0 + Score.friendship_E e + Score.friendship_M m + Score.friendship_C d)
  /\ (forall T, -15 <= Score.love_R T /\ 0 <= Score.friendship_R T).
Proof.
  apply (@no_replies_sentinel ascii_only Sample.late_answer Sample.alice Sample.bob).
  repeat constructor; intros (Hu & Ho & Hd); vm_compute in Hu, Ho, Hd;
    first [discriminate Hu | discriminate Ho | discriminate Hd].
Defined.

(** ** Conversation starters *)

Section StartersFacts.
Import Text Datetime Parser Starters.

(** The loop visits the adjacent pairs and appends the later author of
    each pair more than six hours apart. *)
Lemma starters_pairs (first : row) (rest : list row) :
  starters (first :: rest)
  = user first :: ((fun pc => user pc.2) <$> new_conversations (first :: rest)).
Proof.
  unfold starters, new_conversations.
  set (df := first :: rest).
  pose proof (omap_pairs (fun prev cur =>
    if bool_decide (long_gap (prev, cur)) then Some (user cur) else None) df) as Hp.
  cbn beta in Hp.
  transitivity ([user first] ++
    omap (fun pc => if bool_decide (long_gap (pc.1, pc.2)) then Some (user pc.2) else None)
         (adjacent df)).
  - rewrite <- Hp. apply loop_collect. intros acc i.
    destruct (df !! i) as [cur|], (df !! (i - 1)%nat) as [prev|];
      rewrite ?app_nil_r; try done.
    unfold long_gap, time_threshold. simpl.
    destruct (Z.ltb_spec (6 * 60) (diff_minutes (timestamp cur) (timestamp prev))).
    + by rewrite bool_decide_eq_true_2.
    + rewrite bool_decide_eq_false_2 by lia. by rewrite app_nil_r.
  - simpl. f_equal. clear Hp. induction (adjacent df) as [|pc l IH]; [done|].
    csimpl. rewrite filter_cons. rewrite IH.
    destruct (decide (long_gap pc)) as [Hg|Hg].
    + rewrite bool_decide_eq_true_2; [done|]. by destruct pc.
    + rewrite bool_decide_eq_false_2; [done|]. by destruct pc.
Qed.

Lemma value_counts_snoc (xs : list (list N)) (x : list N) :
  value_counts (xs ++ [x])
  = <[x := S (default O (value_counts xs !! x))]> (value_counts xs).
Proof. unfold value_counts. by rewrite fold_left_app. Qed.

(** Each value is mapped to the number of times it occurs. *)
Lemma value_counts_lookup (xs : list (list N)) (a : list N) :
  default O (value_counts xs !! a) = length (filter (fun x => x = a) xs).
Proof.
  induction xs as [|x xs IH] using rev_ind; [done|].
  rewrite value_counts_snoc, filter_app, length_app, filter_cons, filter_nil.
  destruct (decide (x = a)) as [->|Hne].
  - rewrite lookup_insert_eq. simpl. lia.
  - rewrite lookup_insert_ne by done. simpl. lia.
Qed.

Lemma total_bump (m : gmap (list N) nat) (x : list N) :
  total (<[x := S (default O (m !! x))]> m) = S (total m).
Proof.
  unfold total.
  assert (forall (m' : gmap (list N) nat) j1 j2 z1 z2 y,
    j1 <> j2 -> m' !! j1 = Some z1 -> m' !! j2 = Some z2 ->
    (z1 + (z2 + y) = z2 + (z1 + y))%nat) as comm by (intros; lia).
  destruct (m !! x) as [n|] eqn:E; simpl.
  - rewrite <- insert_delete_eq.
    rewrite map_fold_insert_L; [|by eauto|by rewrite lookup_delete_eq].
    rewrite (map_fold_delete_L _ _ x n m); [lia|by eauto|done].
  - rewrite map_fold_insert_L; [lia|by eauto|done].
Qed.

(** The counts add up to the length of the list. *)
Lemma total_value_counts (xs : list (list N)) :
  total (value_counts xs) = length xs.
Proof.
  induction xs as [|x xs IH] using rev_ind; [done|].
  rewrite value_counts_snoc, total_bump, IH, length_app. simpl. lia.
Qed.

(** C5: on a non-empty frame the first row's author is counted once as a
    starter, every later row that comes more than six hours after its
    predecessor counts its author once more, nothing else is counted, and
    the counts of all authors add up to one plus the number of adjacent
    pairs more than six hours apart. *)
Theorem starters_count (first : row) (rest : list row) :
  let df := first :: rest in
  (forall a,
      default O (analyze_starters df !! a)
      = ((if decide (user first = a) then 1 else 0)
         + length (filter (fun pc => user pc.2 = a) (new_conversations df)))%nat)
  /\ total (analyze_starters df) = (1 + length (new_conversations df))%nat.
Proof.
  intros df. unfold analyze_starters, df. rewrite starters_pairs. split.
  - intros a. rewrite value_counts_lookup, filter_cons.
    assert (length (filter (fun x => x = a)
              ((fun pc => user pc.2) <$> new_conversations (first :: rest)))
            = length (filter (fun pc => user pc.2 = a)
                        (new_conversations (first :: rest)))) as <-.
    { induction (new_conversations (first :: rest)) as [|pc l IH]; [done|].
      csimpl. rewrite !filter_cons. destruct (decide (user pc.2 = a)); simpl; lia. }
    destruct (decide (user first = a)); simpl; lia.
  - rewrite total_value_counts. simpl. by rewrite length_fmap.
Qed.

End StartersFacts.

(** ** Transcript parser *)

Section ParserFacts.
Import Text Regex Datetime Parser.
Context {U : UnicodeData}.

Lemma accepted_parse_line (line : list N) :
  accepted line = true <-> is_Some (parse_line line).
Proof.
  unfold accepted, parse_line, timestamp_ok.
  destruct (re_match false pattern line) as [[groups rest]|]; simpl;
    [|by rewrite <- not_eq_None_Some].
  rewrite orb_true_iff, !bool_decide_eq_true, <- !not_eq_None_Some.
  destruct (strptime (group groups 1) day_first),
    (strptime (group groups 1) month_first); intuition congruence.
Qed.

Lemma rejected_parse_line (line : list N) :
  accepted line = false <-> parse_line line = None.
Proof.
  rewrite <- not_true_iff_false, accepted_parse_line, eq_None_not_Some. done.
Qed.

Lemma fold_step (lines : list (list N)) (init : list row) :
  fold_left step lines init = init ++ omap parse_line lines.
Proof.
  revert init. induction lines as [|line lines IH]; intros init; simpl.
  - by rewrite app_nil_r.
  - rewrite IH. unfold step. csimpl.
    destruct (parse_line line); [by rewrite <- app_assoc|done].
Qed.

(** The loop keeps, in order, the row of every accepted line. *)
Lemma collect_omap (lines : list (list N)) :
  collect lines = omap parse_line lines.
Proof. apply fold_step. Qed.

Lemma collect_nil_iff (lines : list (list N)) :
  collect lines = [] <-> Forall (fun line => accepted line = false) lines.
Proof.
  rewrite collect_omap. induction lines as [|line lines IH]; csimpl.
  - split; [constructor|done].
  - rewrite Forall_cons, rejected_parse_line.
    destruct (parse_line line); [|by rewrite IH; intuition].
    split; [done|by intros [? _]].
Qed.

(** [parse_chat] in one equation. *)
Lemma parse_chat_unfold (text : list N) :
  parse_chat text
  = match omap parse_line (splitlines text) with
    | [] => None
    | data => Some (filter (fun r => message r <> media_omitted) data)
    end.
Proof.
  unfold parse_chat. cbv zeta. rewrite collect_omap.
  by destruct (omap parse_line (splitlines text)).
Qed.

Lemma parse_chat_none_iff (text : list N) :
  parse_chat text = None
  <-> Forall (fun line => accepted line = false) (splitlines text).
Proof.
  rewrite parse_chat_unfold, <- collect_nil_iff, collect_omap.
  by destruct (omap parse_line (splitlines text)).
Qed.

Lemma parse_chat_rows (text : list N) (df : list row) :
  parse_chat text = Some df ->
  df = filter (fun r => message r <> media_omitted)
         (omap parse_line (splitlines text)).
Proof.
  rewrite parse_chat_unfold.
  destruct (omap parse_line (splitlines text)); [done|]. by intros [= <-].
Qed.


Lemma kept_lines (lines : list (list N)) :
  exists kept,
    sublist kept lines
    /\ Forall2 (fun line r => parse_line line = Some r) kept
         (filter (fun r => message r <> media_omitted) (omap parse_line lines)).
Proof.
  induction lines as [|line lines (kept & Hsub & Hrows)]; csimpl.
  - exists []. split; constructor.
  - destruct (parse_line line) as [r|] eqn:E.
    + rewrite filter_cons. destruct (decide (message r <> media_omitted)).
      * exists (line :: kept). split; [by apply sublist_skip|by constructor].
      * exists kept. split; [by apply sublist_cons|done].
    + exists kept. split; [by apply sublist_cons|done].
Qed.

(** A rejected line leaves no trace: the loop gives the same rows with or
    without it. *)
Lemma collect_drop (before after : list (list N)) (bad : list N) :
  accepted bad = false ->
  collect (before ++ bad :: after) = collect (before ++ after).
Proof.
  intros Hbad%rejected_parse_line.
  rewrite !collect_omap, !omap_app. csimpl. by rewrite Hbad.
Qed.

(** C7: the rows [parse_chat] returns come from a subsequence of the input
    lines, one row per kept line and in the order of the lines, each row
    being what the loop makes of its own line alone; a rejected line
    contributes nothing, neither a row nor text added to an earlier row:
    the result is the same as if the line were not there. *)
Theorem parse_keeps_order (text : list N) (df : list row) :
  parse_chat text = Some df ->
  (exists kept,
      sublist kept (splitlines text)
      /\ Forall2 (fun line r => parse_line line = Some r) kept df)
  /\ (forall r, r ∈ df ->
        exists line, line ∈ splitlines text /\ accepted line = true
                     /\ parse_line line = Some r)
  /\ (forall before bad after,
        splitlines text = before ++ bad :: after -> accepted bad = false ->
        df = filter (fun r => message r <> media_omitted)
               (collect (before ++ after))).
Proof.
  intros ->%parse_chat_rows.
  split; [apply kept_lines|split].
  - intros r [_ Hr]%list_elem_of_filter.
    apply list_elem_of_omap in Hr as (line & Hin & Hline).
    exists line. split; [done|]. split; [|done].
    apply accepted_parse_line. eauto.
  - intros before bad after -> Hbad. by rewrite <- collect_omap, collect_drop.
Qed.

(** C10: there is a transcript with an accepted line, all of whose
    accepted lines carry the media placeholder as their text, on which
    [parse_chat] does not fail but returns an empty frame: the emptiness
    test comes before the placeholder filter. *)
Theorem media_only_is_not_failure :
  exists text,
    Exists (fun line => accepted line = true) (splitlines text)
    /\ Forall (fun line => forall r, parse_line line = Some r ->
                                     message r = media_omitted)
         (splitlines text)
    /\ parse_chat text = Some [].
Proof.
  exists (Sample.text_of Sample.only_media). split; [|split].
  - apply Exists_cons_tl, Exists_cons_hd. by vm_compute.
  - repeat constructor; intros r; vm_compute; by intros [= <-].
  - by vm_compute.
Qed.

End ParserFacts.

(** The parser on [with_noise]: the continuation line and the line whose
    clock has no am/pm marker leave no trace. *)
Lemma parse_keeps_order_witness :
  let text := Sample.text_of Sample.with_noise in
  let df :=
    [Parser.Row (Datetime.Datetime 2023 12 25 22 5) Sample.alice
       (Text.txt "merry christmas");
     Parser.Row (Datetime.Datetime 2023 12 25 22 9) Sample.bob
       (Text.txt "thanks, you too")] in
  (exists kept,
      sublist kept (Text.splitlines text)
      /\ Forall2 (fun line r => @Parser.parse_line ascii_only line = Some r) kept df)
  /\ (forall r, r ∈ df ->
        exists line, line ∈ Text.splitlines text
                     /\ @Parser.accepted ascii_only line = true
                     /\ @Parser.parse_line ascii_only line = Some r)
  /\ (forall before bad after,
        Text.splitlines text = before ++ bad :: after ->
        @Parser.accepted ascii_only bad = false ->
        df = filter (fun r => Parser.message r <> Parser.media_omitted)
               (@Parser.collect ascii_only (before ++ after))).
Proof.
  apply (@parse_keeps_order ascii_only). by vm_compute.
Defined.

(** ** Day coverage *)

Section DayCoverage.
Import Text Datetime Parser Metrics.
Context {U : UnicodeData}.

(** The [d] component of the extractor's result. *)
Lemma get_base_metrics_d (df : list row) (user other_user : list N) :
  exists T e m rt,
    get_base_metrics df user other_user
    = (T, e, m,
       match total_days df with
       | Some n => if 0 <? n then (qnat (chat_days df) / inject_Z n)%Q else 0%Q
       | None => 0%Q
       end, rt).
Proof. eexists _, _, _, _. reflexivity. Qed.

(** C3, at a transcript of two messages two hours apart on either side
    of midnight: two distinct days have messages and the calendar span
    [last_day - first_day + 1] is two days, so the coverage the
    specification describes is 2/2; the extractor divides by the whole
    days elapsed between the extreme timestamps plus one, which is 1, and
    returns [d = 2]. *)
Theorem day_coverage_across_midnight :
  exists df,
    parse_chat (Sample.text_of Sample.across_midnight) = Some df
    /\ chat_days df = 2%nat
    /\ calendar_span df = Some 2
    /\ total_days df = Some 1
    /\ (exists T e m rt,
          get_base_metrics df Sample.alice Sample.bob = (T, e, m, 2%Q, rt))
    /\ (1 < 2)%Q.
Proof.
  set (df := [Row (Datetime 2023 1 1 23 0) Sample.alice (txt "hi");
              Row (Datetime 2023 1 2 1 0) Sample.bob (txt "yo")]).
  exists df. split; [by vm_compute|].
  split; [by vm_compute|]. split; [by vm_compute|]. split; [by vm_compute|].
  split; [|done].
  destruct (get_base_metrics_d df Sample.alice Sample.bob)
    as (T & e & m & rt & ->).
  eexists _, _, _, _. reflexivity.
Qed.

End DayCoverage.

(** ** Regular expressions *)

Section RegexFacts.
Import Text Regex.
Context {U : UnicodeData}.

Lemma left_of_cons prev c mid : left_of prev (c :: mid) = left_of (Some c) mid.
Proof.
  unfold left_of. destruct mid as [|c' mid]; [done|].
  rewrite last_cons_cons.
  destruct (last (c' :: mid)) eqn:E; [done|]. by apply last_None in E.
Qed.

Lemma left_of_app prev pre mid :
  left_of (left_of prev pre) mid = left_of prev (pre ++ mid).
Proof.
  revert prev. induction pre as [|c pre IH]; intros prev; [done|].
  simpl. by rewrite !left_of_cons, IH.
Qed.

(** A sequence of literal characters reads exactly a prefix that agrees
    with it character by character. *)
Lemma run_chars {A} (ic : bool) (cs : list N) prev s caps
    (cont : option N -> list N -> gmap nat (list N) -> option A) (a : A) :
  run ic (foldr (fun c r => Seq (Cls (One (Chr c))) r) Eps cs) prev s caps cont
    = Some a
  <-> exists mid s',
        s = mid ++ s'
        /\ Forall2 (fun c x => item_match ic (Chr x) c = true) mid cs
        /\ cont (left_of prev mid) s' caps = Some a.
Proof.
  revert prev s. induction cs as [|x cs IH]; intros prev s.
  - cbn [foldr run]. split.
    + intros H. exists [], s. by repeat split.
    + intros (mid & s' & -> & Hmid & H). by inversion Hmid; subst.
  - cbn [foldr run cls_match]. destruct s as [|c s].
    + split; [done|]. intros (mid & s' & Hs & Hmid & _).
      inversion Hmid; subst. done.
    + destruct (item_match ic (Chr x) c) eqn:E.
      * rewrite IH. split.
        -- intros (mid & s' & -> & Hmid & H). exists (c :: mid), s'.
           rewrite left_of_cons. repeat split; [|done]. by constructor.
        -- intros (mid & s' & Hs & Hmid & H).
           inversion Hmid as [|c' x' mid' cs' Hc Hmid']; subst.
           injection Hs as <- ->. exists mid', s'.
           rewrite left_of_cons in H. done.
      * split; [done|]. intros (mid & s' & Hs & Hmid & _).
        inversion Hmid as [|c' x' mid' cs' Hc Hmid']; subst.
        injection Hs as <- ->. congruence.
Qed.

Lemma matches_at_alt (ic : bool) r1 r2 prev s :
  matches_at ic (Alt r1 r2) prev s = matches_at ic r1 prev s || matches_at ic r2 prev s.
Proof.
  unfold matches_at. rewrite <- bool_decide_or. apply bool_decide_ext.
  cbn [run]. rewrite <- !not_eq_None_Some.
  destruct (run ic r1 prev s ∅ _); intuition congruence.
Qed.

(** A search succeeds when the pattern matches at some position. *)
Lemma search_from_spec (ic : bool) r prev s :
  search_from ic r prev s = true
  <-> exists pre rest, s = pre ++ rest /\ matches_at ic r (left_of prev pre) rest = true.
Proof.
  revert prev. induction s as [|c s IH]; intros prev; simpl.
  - rewrite orb_false_r. split.
    + intros H. by exists [], [].
    + intros (pre & rest & Hs & H). symmetry in Hs.
      apply app_eq_nil in Hs as [-> ->]. done.
  - rewrite orb_true_iff, IH. split.
    + intros [H|(pre & rest & -> & H)].
      * by exists [], (c :: s).
      * exists (c :: pre), rest. by rewrite left_of_cons.
    + intros (pre & rest & Hs & H). destruct pre as [|c' pre].
      * left. simpl in Hs. by subst.
      * right. injection Hs as <- ->. exists pre, rest.
        by rewrite left_of_cons in H.
Qed.

End RegexFacts.

(** ** Engagement balance *)

Section DynamicsFacts.
Import Text Regex Parser Metrics Dynamics.
Context {U : UnicodeData}.

Lemma left_of_None (pre : list N) : left_of None pre = last pre.
Proof. unfold left_of. by destruct (last pre). Qed.

Lemma left_of_nonempty prev (mid : list N) : mid <> [] -> left_of prev mid = last mid.
Proof.
  intros Hne. unfold left_of. destruct (last mid) eqn:E; [done|].
  by apply last_None in E.
Qed.

(** Counting the matches of [\?] counts the question marks. *)
Lemma count_question_marks (fuel : nat) prev (s : list N) :
  (length s < fuel)%nat ->
  count_from false fuel question_mark prev s = question_marks s.
Proof.
  revert fuel prev. induction s as [|c s IH]; intros fuel prev Hfuel;
    (destruct fuel as [|fuel]; [simpl in Hfuel; lia|]); [done|].
  unfold question_marks. rewrite filter_cons.
  cbn [count_from question_mark run cls_match item_match chr].
  change (N_of_ascii "?") with 63%N.
  destruct (N.eqb_spec c 63) as [->|Hne].
  - rewrite decide_True by done.
    replace (length s <? length (63%N :: s))%nat with true
      by (symmetry; apply Nat.ltb_lt; simpl; lia).
    simpl. f_equal. apply IH. simpl in Hfuel. lia.
  - rewrite decide_False by done. apply IH. simpl in Hfuel. lia.
Qed.

Lemma re_count_question_marks (s : list N) :
  re_count false question_mark s = question_marks s.
Proof. apply count_question_marks. lia. Qed.

Lemma count_questions_sum (msgs : list (list N)) :
  count_questions msgs = list_sum (question_marks <$> msgs).
Proof.
  unfold count_questions. f_equal.
  apply list_fmap_ext. intros _ msg _. apply re_count_question_marks.
Qed.

(** A message with a question mark contributes at least one. *)
Lemma asking_le_question_marks (msgs : list (list N)) :
  (length (filter (fun msg => 63%N ∈ msg) msgs)
   <= list_sum (question_marks <$> msgs))%nat.
Proof.
  induction msgs as [|msg msgs IH]; [done|].
  rewrite filter_cons. csimpl. destruct (decide (63%N ∈ msg)) as [Hin|]; [|lia].
  assert (0 < question_marks msg)%nat; [|simpl; lia].
  unfold question_marks. destruct (filter _ msg) eqn:E; [|simpl; lia].
  exfalso. by apply (filter_nil_not_elem_of _ msg 63%N E).
Qed.

(** A pattern [\bw\b] matches at a position when the position is a word
    boundary, the text that follows starts with [w] up to case, and the
    end of that occurrence is a word boundary again. *)
Lemma matches_at_whole_word (w : string) prev (s : list N) :
  matches_at true (whole_word w) prev s = true
  <-> at_boundary prev s = true
      /\ exists mid post,
           s = mid ++ post
           /\ Forall2 (fun c x => item_match true (Chr x) c = true) mid (txt w)
           /\ at_boundary (left_of prev mid) post = true.
Proof.
  unfold matches_at, whole_word, seqs, lit.
  rewrite bool_decide_eq_true. cbn [foldr]. cbn [run].
  destruct (at_boundary prev s); [|split; [by intros [? ?]|by intros [? ?]]].
  split.
  - intros [[] H]. split; [done|].
    apply run_chars in H as (mid & post & -> & Hmid & H).
    exists mid, post. repeat split; [done|].
    by destruct (at_boundary (left_of prev mid) post).
  - intros (_ & mid & post & -> & Hmid & Hb). exists tt.
    apply run_chars. exists mid, post. by rewrite Hb.
Qed.

Lemma matches_at_join (ic : bool) (rs : list re) prev (s : list N) :
  rs <> [] ->
  matches_at ic (join rs) prev s = existsb (fun r => matches_at ic r prev s) rs.
Proof.
  induction rs as [|r [|r' rs] IH]; intros Hne; [done| |].
  - simpl. by rewrite orb_false_r.
  - change (join (r :: r' :: rs)) with (Alt r (join (r' :: rs))).
    rewrite matches_at_alt, IH by done. done.
Qed.

(** Up to case, the characters read are those of a lower-case word. *)
Lemma chars_up_to_case (mid cs : list N) :
  Forall (fun x => to_lower x = x) cs ->
  Forall2 (fun c x => item_match true (Chr x) c = true) mid cs
  <-> to_lower <$> mid = cs.
Proof.
  intros Hcs. revert mid. induction Hcs as [|x cs Hx _ IH]; intros mid.
  - split; [by inversion 1|]. intros Hm. apply fmap_nil_inv in Hm as ->. constructor.
  - destruct mid as [|c mid]; [split; [by inversion 1|done]|].
    rewrite Forall2_cons, IH. csimpl. rewrite Hx, N.eqb_eq. split.
    + by intros [-> ->].
    + by intros [= -> ->].
Qed.

Lemma lexicon_lower_case :
  Forall (fun w => txt w <> [] /\ Forall (fun x => to_lower x = x) (txt w)) lexicon.
Proof. repeat constructor; done. Qed.

(** The search for the joined lexicon patterns finds exactly the
    messages in which a lexicon word occurs as a whole word, up to case. *)
Lemma low_effort_search (msg : list N) :
  re_search true (join low_effort_replies) msg = true <-> low_effort msg.
Proof.
  unfold re_search, low_effort, occurs_as_word. rewrite search_from_spec.
  pose proof lexicon_lower_case as Hlex. rewrite Forall_forall in Hlex.
  split.
  - intros (pre & rest & -> & Hm).
    rewrite matches_at_join in Hm by done.
    apply existsb_exists in Hm as (r & Hr & Hm).
    apply list_elem_of_In, list_elem_of_fmap in Hr as (w & -> & Hw).
    destruct (Hlex w Hw) as [Hne Hlow].
    apply matches_at_whole_word in Hm as (Hb & mid & post & -> & Hmid & He).
    apply chars_up_to_case in Hmid; [|done].
    exists w. split; [done|]. exists pre, mid, post.
    rewrite left_of_None in Hb, He.
    rewrite left_of_nonempty in He by (intros ->; by rewrite <- Hmid in Hne).
    done.
  - intros (w & Hw & pre & mid & post & -> & Hmid & Hb & He).
    destruct (Hlex w Hw) as [Hne Hlow].
    exists pre, (mid ++ post). split; [done|].
    rewrite matches_at_join by done. apply existsb_exists.
    exists (whole_word w). split.
    { apply list_elem_of_In, list_elem_of_fmap. eauto. }
    apply matches_at_whole_word. rewrite left_of_None. split; [done|].
    exists mid, post. split; [done|]. split; [by apply chars_up_to_case|].
    rewrite left_of_nonempty by (intros ->; by rewrite <- Hmid in Hne). done.
Qed.

Lemma count_low_effort_rows (df : list row) (u : list N) :
  count_low_effort (message <$> filter (fun r => user r = u) df)
  = length (filter (fun r => user r = u
                             /\ re_search true (join low_effort_replies) (message r) = true)
              df).
Proof. apply length_filter_fmap_filter. Qed.

(** C8: the low-effort count of a user is the number of that user's
    messages the lexicon search finds, and the search finds a message
    exactly when one of [ok], [k], [hmm], [lol], [haha], [yeah] occurs in
    it as a whole word, up to case.  So ["ok"] and ["OK"] are counted and
    ["okay"] is not. *)
Theorem low_effort_counts_whole_words :
  (forall df user1 user2,
      le_count (analyze_chat_dynamics df user1 user2)
      = (length (filter (fun r => user r = user1
                   /\ re_search true (join low_effort_replies) (message r) = true) df),
         length (filter (fun r => user r = user2
                   /\ re_search true (join low_effort_replies) (message r) = true) df)))
  /\ (forall msg,
         re_search true (join low_effort_replies) msg = true <-> low_effort msg)
  /\ low_effort (txt "ok")
  /\ low_effort (txt "OK")
  /\ ~ low_effort (txt "okay")
  /\ count_low_effort [txt "ok"; txt "OK"; txt "okay"] = 2%nat.
Proof.
  split; [|split; [exact low_effort_search|]].
  - intros df user1 user2. unfold analyze_chat_dynamics. cbn [le_count].
    by rewrite !count_low_effort_rows.
  - rewrite <- !low_effort_search. repeat split; try (by vm_compute).
Qed.

(** C2, as the code has it: for each of the two users the low-effort count
    is at most the number of that user's messages; the question count is
    the number of question marks in that user's messages, every occurrence
    counted, and so at least the number of those messages that contain a
    question mark. *)
Theorem engagement_counts (df : list row) (user1 user2 : list N) :
  let result := analyze_chat_dynamics df user1 user2 in
  let messages_of u := message <$> filter (fun r => user r = u) df in
  ((le_count result).1 <= length (messages_of user1))%nat
  /\ ((le_count result).2 <= length (messages_of user2))%nat
  /\ (q_count result).1 = list_sum (question_marks <$> messages_of user1)
  /\ (q_count result).2 = list_sum (question_marks <$> messages_of user2)
  /\ (length (filter (fun msg => 63%N ∈ msg) (messages_of user1))
      <= (q_count result).1)%nat
  /\ (length (filter (fun msg => 63%N ∈ msg) (messages_of user2))
      <= (q_count result).2)%nat.
Proof.
  intros result messages_of. unfold result, analyze_chat_dynamics. cbn [le_count q_count fst snd].
  rewrite !count_questions_sum. fold (messages_of user1) (messages_of user2).
  repeat split; try apply length_filter; apply asking_le_question_marks.
Qed.

(** C2 as stated fails on [eager], a chat of two that parses to a frame
    with two authors, which is what [main] analyses: Alice has one
    message, it contains two question marks, and her question count is 2;
    Bob has one message and a question count of 0. *)
Lemma question_count_exceeds_messages :
  let result := @analyze_chat_dynamics ascii_only Sample.eager Sample.alice Sample.bob in
  let messages := message <$> filter (fun r => user r = Sample.alice) Sample.eager in
  @parse_chat ascii_only (Sample.text_of Sample.eager_lines) = Some Sample.eager
  /\ Analysis.users Sample.eager = [Sample.alice; Sample.bob]
  /\ q_count result = (2%nat, 0%nat)
  /\ length messages = 1%nat
  /\ length (filter (fun msg => 63%N ∈ msg) messages) = 1%nat
  /\ ~ ((q_count result).1 <= length messages)%nat.
Proof.
  assert (q_count (@analyze_chat_dynamics ascii_only Sample.eager Sample.alice Sample.bob)
          = (2%nat, 0%nat)) as Hq by (by vm_compute).
  cbv zeta. rewrite Hq. repeat split; try (by vm_compute).
  change (~ (2 <= 1)%nat). lia.
Qed.

End DynamicsFacts.

(** * Further properties of the code *)

(** ** Ranges and monotonicity of the two scores *)

Section ScoreRanges.
Import Score.

Ltac cases x :=
  repeat match goal with
  | |- context [Qltb x ?b] => destruct (Qltb_spec x b)
  | |- context [Qltb ?b x] => destruct (Qltb_spec b x)
  end.

Ltac chain f := unfold f, Qgtb.

Lemma love_R_range T : -15 <= love_R T <= 25 /\ (5 | love_R T).
Proof. chain love_R. cases T; (split; [lia|]); by apply Z.mod_divide. Qed.

Lemma love_E_range e : 0 <= love_E e <= 20 /\ (5 | love_E e).
Proof. chain love_E. cases e; (split; [lia|]); by apply Z.mod_divide. Qed.

Lemma love_M_range m : -10 <= love_M m <= 15 /\ (5 | love_M m).
Proof. chain love_M. cases m; (split; [lia|]); by apply Z.mod_divide. Qed.

Lemma love_C_range d : 0 <= love_C d <= 15 /\ (5 | love_C d).
Proof. chain love_C. cases d; (split; [lia|]); by apply Z.mod_divide. Qed.

Lemma friendship_R_range T : 0 <= friendship_R T <= 20 /\ (5 | friendship_R T).
Proof. chain friendship_R. cases T; (split; [lia|]); by apply Z.mod_divide. Qed.

Lemma friendship_E_range e : 0 <= friendship_E e <= 20 /\ (5 | friendship_E e).
Proof. chain friendship_E. cases e; (split; [lia|]); by apply Z.mod_divide. Qed.

Lemma friendship_M_range m : -5 <= friendship_M m <= 20 /\ (5 | friendship_M m).
Proof. chain friendship_M. cases m; (split; [lia|]); by apply Z.mod_divide. Qed.

Lemma friendship_C_range d : 0 <= friendship_C d <= 20 /\ (5 | friendship_C d).
Proof. chain friendship_C. cases d; (split; [lia|]); by apply Z.mod_divide. Qed.

(** X1: the love score always lies between 25 and 125 and the friendship
    score between 35 and 120; both are multiples of 5, and the four
    bounds are attained. *)
Theorem score_ranges (T e m d : Q) :
  (25 <= (calculate_lovescore T e m d).1.1.1.1 <= 125
   /\ (5 | (calculate_lovescore T e m d).1.1.1.1))
  /\ (35 <= calculate_friendship_score T e m d <= 120
      /\ (5 | calculate_friendship_score T e m d))
  /\ (calculate_lovescore 999 0 0 0).1.1.1.1 = 25
  /\ (calculate_lovescore 1 1 0.5 1).1.1.1.1 = 125
  /\ calculate_friendship_score 999 0 0 0 = 35
  /\ calculate_friendship_score 1 1 0.5 1 = 120.
Proof.
  unfold calculate_lovescore, calculate_friendship_score. cbn [fst].
  destruct (love_R_range T) as [? ?], (love_E_range e) as [? ?],
    (love_M_range m) as [? ?], (love_C_range d) as [? ?],
    (friendship_R_range T) as [? ?], (friendship_E_range e) as [? ?],
    (friendship_M_range m) as [? ?], (friendship_C_range d) as [? ?].
  repeat split; try lia; try reflexivity;
    repeat apply Z.divide_add_r; try done; by apply Z.mod_divide.
Qed.

Lemma love_R_anti T1 T2 : (T1 <= T2)%Q -> love_R T2 <= love_R T1.
Proof. intros H. chain love_R. cases T1; cases T2; try lia; exfalso; lra. Qed.

Lemma love_E_mono e1 e2 : (e1 <= e2)%Q -> love_E e1 <= love_E e2.
Proof. intros H. chain love_E. cases e1; cases e2; try lia; exfalso; lra. Qed.

Lemma love_M_mono m1 m2 : (m1 <= m2)%Q -> love_M m1 <= love_M m2.
Proof. intros H. chain love_M. cases m1; cases m2; try lia; exfalso; lra. Qed.

Lemma love_C_mono d1 d2 : (d1 <= d2)%Q -> love_C d1 <= love_C d2.
Proof. intros H. chain love_C. cases d1; cases d2; try lia; exfalso; lra. Qed.

Lemma friendship_R_anti T1 T2 : (T1 <= T2)%Q -> friendship_R T2 <= friendship_R T1.
Proof. intros H. chain friendship_R. cases T1; cases T2; try lia; exfalso; lra. Qed.

Lemma friendship_E_mono e1 e2 : (e1 <= e2)%Q -> friendship_E e1 <= friendship_E e2.
Proof. intros H. chain friendship_E. cases e1; cases e2; try lia; exfalso; lra. Qed.

Lemma friendship_M_mono m1 m2 : (m1 <= m2)%Q -> friendship_M m1 <= friendship_M m2.
Proof. intros H. chain friendship_M. cases m1; cases m2; try lia; exfalso; lra. Qed.

Lemma friendship_C_mono d1 d2 : (d1 <= d2)%Q -> friendship_C d1 <= friendship_C d2.
Proof. intros H. chain friendship_C. cases d1; cases d2; try lia; exfalso; lra. Qed.

(** X2: neither score ever drops when replies get faster, or emoji use,
    message share or day coverage grow. *)
Theorem scores_monotone (T1 e1 m1 d1 T2 e2 m2 d2 : Q) :
  (T2 <= T1)%Q -> (e1 <= e2)%Q -> (m1 <= m2)%Q -> (d1 <= d2)%Q ->
  (calculate_lovescore T1 e1 m1 d1).1.1.1.1
    <= (calculate_lovescore T2 e2 m2 d2).1.1.1.1
  /\ calculate_friendship_score T1 e1 m1 d1
     <= calculate_friendship_score T2 e2 m2 d2.
Proof.
  intros HT He Hm Hd.
  unfold calculate_lovescore, calculate_friendship_score. cbn [fst].
  pose proof (love_R_anti _ _ HT). pose proof (love_E_mono _ _ He).
  pose proof (love_M_mono _ _ Hm). pose proof (love_C_mono _ _ Hd).
  pose proof (friendship_R_anti _ _ HT). pose proof (friendship_E_mono _ _ He).
  pose proof (friendship_M_mono _ _ Hm). pose proof (friendship_C_mono _ _ Hd).
  lia.
Qed.

(** X3: the friendship formula is the more forgiving one on reply time
    exactly from two minutes on: its response-speed sub-score is at least
    the love formula's if and only if [T >= 2]. *)
Theorem friendship_more_forgiving (T : Q) :
  love_R T <= friendship_R T <-> (2 <= T)%Q.
Proof.
  chain love_R. chain friendship_R.
  cases T; split; intros H; try lia; try lra; exfalso; lra.
Qed.

End ScoreRanges.

(** Replying in 3 minutes instead of 12, with more emoji, a larger share
    and better coverage. *)
Lemma scores_monotone_witness :
  (Score.calculate_lovescore 12 0.1 0.3 0.4).1.1.1.1
    <= (Score.calculate_lovescore 3 0.3 0.5 0.9).1.1.1.1
  /\ Score.calculate_friendship_score 12 0.1 0.3 0.4
     <= Score.calculate_friendship_score 3 0.3 0.5 0.9.
Proof.
  apply (scores_monotone 12 0.1 0.3 0.4 3 0.3 0.5 0.9); by vm_compute.
Defined.

(** ** Status classifier *)

Section StatusFacts.
Import Status.

Ltac bands s :=
  unfold get_relationship_status, Qleb;
  repeat match goal with
  | |- context [Qltb s ?b] => destruct (Qltb_spec s b)
  | |- context [Qltb ?b s] => destruct (Qltb_spec b s)
  end; cbn.

(** X4: the title depends on the score through the bands [>= 90],
    [75, 90), [60, 75), [45, 60), [30, 45) and [< 30] only; the status type
    is ["error"] exactly below 30, and [main] shows a warning banner
    exactly below 45. *)
Theorem status_bands (score : Q) :
  let '(t, _, status_type) := get_relationship_status score in
  (t = Soulmates <-> (90 <= score)%Q)
  /\ (t = PowerCouple <-> (75 <= score)%Q /\ (score < 90)%Q)
  /\ (t = Besties <-> (60 <= score)%Q /\ (score < 75)%Q)
  /\ (t = SlowBurn <-> (45 <= score)%Q /\ (score < 60)%Q)
  /\ (t = JustAcquaintances <-> (30 <= score)%Q /\ (score < 45)%Q)
  /\ (t = GhostTown <-> (score < 30)%Q)
  /\ (status_type = "error"%string <-> (score < 30)%Q)
  /\ (show_status status_type = Warning <-> (score < 45)%Q).
Proof.
  bands score; repeat split; intros; try discriminate; try done; try lra;
    try (exfalso; lra).
Qed.

(** X5: a higher score never gives a worse title. *)
Theorem status_monotone (s1 s2 : Q) :
  (s1 <= s2)%Q ->
  (rank (get_relationship_status s2).1.1 <= rank (get_relationship_status s1).1.1)%nat.
Proof.
  intros H. bands s1; bands s2; try lia; exfalso; lra.
Qed.

End StatusFacts.

(** A score of 62 against one of 80. *)
Lemma status_monotone_witness :
  (Status.rank (Status.get_relationship_status 80).1.1
   <= Status.rank (Status.get_relationship_status 62).1.1)%nat.
Proof. apply (status_monotone 62 80). by vm_compute. Defined.

(** ** Base metrics: reply times *)

Section ReplyTimeFacts.
Import Text Datetime Parser Metrics.

Lemma qnat_S (n : nat) : (qnat (S n) == qnat n + 1)%Q.
Proof.
  unfold qnat. rewrite Nat2Z.inj_succ, <- Z.add_1_r, inject_Z_plus. reflexivity.
Qed.

Lemma qnat_nonneg (n : nat) : (0 <= qnat n)%Q.
Proof. unfold qnat. change 0%Q with (inject_Z 0). rewrite <- Zle_Qle. lia. Qed.

Lemma qnat_pos (n : nat) : (0 < n)%nat -> (0 < qnat n)%Q.
Proof. intros H. unfold qnat. change 0%Q with (inject_Z 0). rewrite <- Zlt_Qlt. lia. Qed.

Lemma fold_Qplus_le (hi : Q) (xs : list Q) (acc : Q) :
  Forall (fun x => x <= hi)%Q xs ->
  (fold_left Qplus xs acc <= acc + hi * qnat (length xs))%Q.
Proof.
  intros H. revert acc. induction H as [|x xs Hhi _ IH]; intros acc.
  - cbn [fold_left length]. change (qnat 0) with 0%Q. lra.
  - cbn [fold_left length]. specialize (IH (acc + x)%Q). rewrite qnat_S. lra.
Qed.

Lemma fold_Qplus_ge (lo : Q) (xs : list Q) (acc : Q) :
  Forall (fun x => lo <= x)%Q xs ->
  (acc + lo * qnat (length xs) <= fold_left Qplus xs acc)%Q.
Proof.
  intros H. revert acc. induction H as [|x xs Hlo _ IH]; intros acc.
  - cbn [fold_left length]. change (qnat 0) with 0%Q. lra.
  - cbn [fold_left length]. specialize (IH (acc + x)%Q). rewrite qnat_S. lra.
Qed.

(** The mean of a non-empty list is bounded by any bound of its members. *)
Lemma mean_le (hi : Q) (xs : list Q) :
  xs <> [] -> Forall (fun x => x <= hi)%Q xs ->
  (qsum xs / qnat (length xs) <= hi)%Q.
Proof.
  intros Hne H. pose proof (fold_Qplus_le hi xs 0 H) as H2.
  apply Qle_shift_div_r; [|unfold qsum; lra].
  apply qnat_pos. destruct xs; [done|simpl; lia].
Qed.

Lemma mean_ge (lo : Q) (xs : list Q) :
  xs <> [] -> Forall (fun x => lo <= x)%Q xs ->
  (lo <= qsum xs / qnat (length xs))%Q.
Proof.
  intros Hne H. pose proof (fold_Qplus_ge lo xs 0 H) as H1.
  apply Qle_shift_div_l; [|unfold qsum; lra].
  apply qnat_pos. destruct xs; [done|simpl; lia].
Qed.

(** Every sample is the gap, in minutes, of a qualifying pair. *)
Lemma reply_times_samples (df : list row) (user other_user : list N) (x : Q) :
  x ∈ reply_times df user other_user
  <-> exists pc, pc ∈ adjacent df /\ qualifies user other_user pc
                 /\ x = inject_Z (diff_minutes (timestamp pc.2) (timestamp pc.1)).
Proof.
  rewrite reply_times_pairs, list_elem_of_omap. unfold qualifies.
  split; intros (pc & Hin & H); exists pc; (split; [done|]).
  - destruct (bool_decide _ && bool_decide _ && _) eqn:E; [|done].
    apply andb_prop in E as [E E3]. apply andb_prop in E as [E1 E2].
    apply bool_decide_eq_true in E1, E2. apply Z.ltb_lt in E3.
    by injection H as <-.
  - destruct H as ((Hu & Ho & Hd) & ->).
    rewrite !bool_decide_eq_true_2 by done.
    by replace (_ <? 1440) with true by (symmetry; by apply Z.ltb_lt).
Qed.

Lemma adjacent_length {A} (l : list A) : length (adjacent l) = (length l - 1)%nat.
Proof.
  unfold adjacent. rewrite length_zip_with.
  destruct l as [|a l]; [done|]. cbn [tail length].
  rewrite Nat.sub_succ, Nat.sub_0_r. apply Nat.min_r. lia.
Qed.

Lemma length_omap_le {A B} (f : A -> option B) (l : list A) :
  (length (omap f l) <= length l)%nat.
Proof. induction l as [|x l IH]; csimpl; [done|]. destruct (f x); simpl; lia. Qed.

Context {U : UnicodeData}.

(** X6: the reply-time samples are the gaps of the qualifying adjacent
    pairs: there is none on the empty frame, on any other frame there are
    fewer samples than rows, and each sample is below 1440 minutes; the
    mean [T] the extractor returns is therefore always below 1440 (at most
    1439, the sentinel 999 included), and on a frame in chronological
    order no sample and no [T] is negative. *)
Theorem reply_time_bounds (df : list row) (user other_user : list N) :
  let '(T, _, _, _, rt) := get_base_metrics df user other_user in
  (df = [] -> rt = [])
  /\ (df <> [] -> (length rt < length df)%nat)
  /\ Forall (fun x => x < 1440)%Q rt
  /\ (T <= 1439)%Q
  /\ (Forall (fun pc => 0 <= diff_minutes (timestamp pc.2) (timestamp pc.1))
        (adjacent df) ->
      Forall (fun x => 0 <= x)%Q rt /\ (0 <= T)%Q).
Proof.
  unfold get_base_metrics. cbv zeta.
  set (rt := reply_times df user other_user).
  assert (forall x, x ∈ rt ->
            exists pc, pc ∈ adjacent df /\ qualifies user other_user pc
              /\ x = inject_Z (diff_minutes (timestamp pc.2) (timestamp pc.1)))
    as Hrt by (intros x; apply reply_times_samples).
  assert (Forall (fun x => x <= 1439)%Q rt) as Hhi.
  { apply Forall_forall. intros x (pc & _ & (_ & _ & Hd) & ->)%Hrt.
    change 1439%Q with (inject_Z 1439). rewrite <- Zle_Qle. lia. }
  assert (length rt <= length df - 1)%nat as Hlen.
  { unfold rt. rewrite reply_times_pairs, <- adjacent_length. apply length_omap_le. }
  split; [|split; [|split; [|split]]].
  - intros Hdf. unfold rt. by rewrite Hdf.
  - intros Hne. destruct df; [done|]. simpl in Hlen |- *. lia.
  - eapply Forall_impl; [exact Hhi|]. intros x Hx. simpl in Hx. lra.
  - destruct rt as [|x rt'] eqn:E; [done|]. by apply mean_le.
  - intros Hchron. rewrite Forall_forall in Hchron.
    assert (Forall (fun x => 0 <= x)%Q rt) as Hlo.
    { apply Forall_forall. intros x (pc & Hin & _ & ->)%Hrt.
      change 0%Q with (inject_Z 0). rewrite <- Zle_Qle. by apply Hchron. }
    split; [done|]. destruct rt as [|x rt'] eqn:E; [done|]. by apply mean_ge.
Qed.

End ReplyTimeFacts.

(** ** Base metrics: shares *)

Section ShareFacts.
Import Text Datetime Parser Metrics Analysis.

Lemma elem_of_unique (xs : list (list N)) (x : list N) : x ∈ unique xs <-> x ∈ xs.
Proof.
  induction xs as [|y xs IH]; [done|]. cbn [unique].
  rewrite !elem_of_cons, list_elem_of_filter, IH.
  destruct (decide (x = y)); naive_solver.
Qed.

Lemma NoDup_unique (xs : list (list N)) : NoDup (unique xs).
Proof.
  induction xs as [|y xs IH]; cbn [unique]; constructor.
  - rewrite list_elem_of_filter. naive_solver.
  - by apply NoDup_filter.
Qed.

(** With exactly two authors, of which [user1] and [user2] are two
    different ones, every row is by one of them. *)
Lemma two_authors (df : list row) (user1 user2 : list N) :
  length (users df) = 2%nat -> user1 ∈ users df -> user2 ∈ users df ->
  user1 <> user2 ->
  Forall (fun r => user r = user1 \/ user r = user2) df.
Proof.
  unfold users. intros Hlen H1 H2 Hne. apply Forall_forall. intros r Hr.
  assert (user r ∈ unique (user <$> df)) as H.
  { apply elem_of_unique, list_elem_of_fmap. eauto. }
  destruct (unique (user <$> df)) as [|a [|b [|c l]]]; try done.
  set_solver.
Qed.

Lemma split_by_author (df : list row) (user1 user2 : list N) :
  user1 <> user2 ->
  Forall (fun r => user r = user1 \/ user r = user2) df ->
  (length (filter (fun r => user r = user1) df)
   + length (filter (fun r => user r = user2) df) = length df)%nat.
Proof.
  intros Hne. induction 1 as [|r df Hr _ IH]; [done|].
  rewrite !filter_cons.
  destruct (decide (user r = user1)), (decide (user r = user2)); simpl; try lia.
  - congruence.
  - tauto.
Qed.

Lemma qnat_plus (a b : nat) : (qnat (a + b) == qnat a + qnat b)%Q.
Proof. unfold qnat. rewrite Nat2Z.inj_add, inject_Z_plus. reflexivity. Qed.

Context {U : UnicodeData}.

(** X7: whatever the frame, the message share lies between 0 and 1, and
    the emoji ratio and the day coverage are not negative. *)
Theorem ratios_bounds (df : list row) (user other_user : list N) :
  let '(_, e, m, d, _) := get_base_metrics df user other_user in
  (0 <= e)%Q /\ (0 <= m)%Q /\ (m <= 1)%Q /\ (0 <= d)%Q.
Proof.
  unfold get_base_metrics. cbv zeta. split; [|split; [|split]].
  - destruct (message <$> filter _ df) as [|msg msgs]; [done|].
    apply Qle_shift_div_l; [by apply qnat_pos; simpl; lia|].
    rewrite Qmult_0_l. apply qnat_nonneg.
  - destruct (Nat.ltb_spec 0 (length df)); [|done].
    apply Qle_shift_div_l; [by apply qnat_pos|].
    rewrite Qmult_0_l. apply qnat_nonneg.
  - destruct (Nat.ltb_spec 0 (length df)); [|done].
    apply Qle_shift_div_r; [by apply qnat_pos|].
    rewrite Qmult_1_l. unfold qnat. rewrite <- Zle_Qle.
    apply inj_le, length_filter.
  - destruct (total_days df) as [n|]; [|done].
    destruct (Z.ltb_spec 0 n); [|done].
    apply Qle_shift_div_l.
    + change 0%Q with (inject_Z 0). by rewrite <- Zlt_Qlt.
    + rewrite Qmult_0_l. apply qnat_nonneg.
Qed.

(** X8: on a frame with exactly two authors, the two selected users being
    those two, each has a positive message share and the two shares add up
    to 1. *)
Theorem shares_sum_to_one (df : list row) (user1 user2 : list N) :
  length (users df) = 2%nat -> user1 ∈ users df -> user2 ∈ users df ->
  user1 <> user2 ->
  let m1 := (get_base_metrics df user1 user2).1.1.2 in
  let m2 := (get_base_metrics df user2 user1).1.1.2 in
  (m1 + m2 == 1)%Q /\ (0 < m1)%Q /\ (0 < m2)%Q.
Proof.
  intros Hlen H1 H2 Hne.
  pose proof (split_by_author df user1 user2 Hne
                (two_authors df user1 user2 Hlen H1 H2 Hne)) as Hsplit.
  assert (forall u, u ∈ users df ->
            (0 < length (filter (fun r => user r = u) df))%nat) as Hpos.
  { intros u Hu. apply elem_of_unique, list_elem_of_fmap in Hu as (r & -> & Hr).
    destruct (filter (fun r0 => user r0 = user r) df) eqn:E; [|simpl; lia].
    exfalso. by apply (filter_nil_not_elem_of _ df r E). }
  pose proof (Hpos user1 H1) as Hp1. pose proof (Hpos user2 H2) as Hp2.
  unfold get_base_metrics. cbv zeta. cbn [fst snd].
  replace (0 <? length df)%nat with true by (symmetry; apply Nat.ltb_lt; lia).
  assert (0 < qnat (length df))%Q as Hn by (apply qnat_pos; lia).
  apply qnat_pos in Hp1, Hp2.
  split; [|split].
  - rewrite <- Hsplit at 1 2. rewrite <- Hsplit in Hn. rewrite qnat_plus in *. field. lra.
  - apply Qlt_shift_div_l; [done|]. by rewrite Qmult_0_l.
  - apply Qlt_shift_div_l; [done|]. by rewrite Qmult_0_l.
Qed.

End ShareFacts.

(** Bob and Alice in [late_answer]: one message against two. *)
Lemma shares_sum_to_one_witness :
  let m1 := (@Metrics.get_base_metrics ascii_only Sample.late_answer
               Sample.alice Sample.bob).1.1.2 in
  let m2 := (@Metrics.get_base_metrics ascii_only Sample.late_answer
               Sample.bob Sample.alice).1.1.2 in
  (m1 + m2 == 1)%Q /\ (0 < m1)%Q /\ (0 < m2)%Q.
Proof.
  apply (@shares_sum_to_one ascii_only Sample.late_answer Sample.alice Sample.bob).
  - by vm_compute.
  - vm_compute. apply list_elem_of_In. simpl. tauto.
  - vm_compute. apply list_elem_of_In. simpl. tauto.
  - by vm_compute.
Defined.

(** ** The analysis as [main] runs it *)

Section AnalysisFacts.
Import Text Datetime Parser Metrics Score Status Analysis.
Context {U : UnicodeData}.

(** X9: the average love score lies between 25 and 125, and analysing
    with the two users exchanged exchanges their scores and leaves the
    average and the status unchanged. *)
Theorem scores_symmetric (df : list row) (user1 user2 : list N) :
  let r := scores df user1 user2 in
  let r' := scores df user2 user1 in
  lovescore1 r' = lovescore2 r /\ lovescore2 r' = lovescore1 r
  /\ friendship_score1 r' = friendship_score2 r
  /\ friendship_score2 r' = friendship_score1 r
  /\ avg_lovescore r' = avg_lovescore r
  /\ status r' = status r
  /\ (25 <= avg_lovescore r)%Q /\ (avg_lovescore r <= 125)%Q.
Proof.
  cbv zeta. unfold scores.
  destruct (get_base_metrics df user1 user2) as [[[[T1 e1] m1] d1] rt1].
  destruct (get_base_metrics df user2 user1) as [[[[T2 e2] m2] d2] rt2].
  destruct (love_R_range T1) as [? _], (love_E_range e1) as [? _],
    (love_M_range m1) as [? _], (love_C_range d1) as [? _],
    (love_R_range T2) as [? _], (love_E_range e2) as [? _],
    (love_M_range m2) as [? _], (love_C_range d2) as [? _].
  unfold calculate_lovescore.
  cbn [lovescore1 lovescore2 friendship_score1 friendship_score2
       avg_lovescore status].
  set (l1 := 50 + love_R T1 + love_E e1 + love_M m1 + love_C d1) in *.
  set (l2 := 50 + love_R T2 + love_E e2 + love_M m2 + love_C d2) in *.
  assert ((inject_Z l2 + inject_Z l1) / 2 = (inject_Z l1 + inject_Z l2) / 2)%Q as Havg.
  { unfold Qdiv, Qmult, Qplus, inject_Z. cbn. f_equal. lia. }
  repeat split; try done; try (by rewrite Havg).
  - apply Qle_shift_div_l; [done|]. rewrite <- inject_Z_plus.
    change (25 * 2)%Q with (inject_Z 50). rewrite <- Zle_Qle. lia.
  - apply Qle_shift_div_r; [done|]. rewrite <- inject_Z_plus.
    change (125 * 2)%Q with (inject_Z 250). rewrite <- Zle_Qle. lia.
Qed.

(** X10: [main] reports a parse error exactly when no line is accepted;
    it reaches the analysis exactly when the parsed frame has two authors
    and the two selected users differ; a frame emptied by the media
    filter is reported as not one-on-one. *)
Theorem main_outcomes (text : list N) (user1 user2 : list N) :
  (main text user1 user2 = ParseError
   <-> Forall (fun line => accepted line = false) (splitlines text))
  /\ (forall r, main text user1 user2 = Analysed r
      <-> exists df, parse_chat text = Some df /\ length (users df) = 2%nat
                     /\ user1 <> user2 /\ r = scores df user1 user2)
  /\ (parse_chat text = Some [] -> main text user1 user2 = NotOneOnOne).
Proof.
  pose proof (parse_chat_none_iff text) as Hnone. unfold main.
  destruct (parse_chat text) as [df|] eqn:E.
  - split; [|split].
    + split.
      * destruct (negb (length (users df) =? 2)%nat); [done|].
        by destruct (bool_decide (user1 = user2)).
      * intros HF. by apply Hnone in HF.
    + intros r. destruct (Nat.eqb_spec (length (users df)) 2) as [Hlen|Hlen]; cbn [negb].
      * destruct (decide (user1 = user2)) as [Heq|Hne].
        -- rewrite bool_decide_eq_true_2 by done. split; [done|].
           by intros (df' & [= <-] & _ & Hne & _).
        -- rewrite bool_decide_eq_false_2 by done. split.
           ++ intros [= <-]. by exists df.
           ++ by intros (df' & [= <-] & _ & _ & ->).
      * split; [done|]. by intros (df' & [= <-] & Hlen' & _).
    + by intros [= ->].
  - split; [|split]; [by intuition| |done].
    intros r. split; [done|]. by intros (df & ? & _).
Qed.

End AnalysisFacts.

(** ** Text *)

Section TextFacts.
Import Text.
Local Open Scope N_scope.

Lemma splitlines_from_line (l cur rest : list N) :
  Forall (fun c => is_linebreak c = false) l ->
  splitlines_from cur (l ++ 10 :: rest) = rev (rev l ++ cur) :: splitlines_from [] rest.
Proof.
  intros Hl. revert cur. induction Hl as [|c l Hc _ IH]; intros cur.
  - simpl. by destruct rest.
  - simpl. rewrite Hc, IH. by rewrite <- app_assoc.
Qed.

(** X11: [splitlines] undoes the joining of lines with line feeds: for
    lines that contain no line-break character, splitting the text made of
    them gives the lines back. *)
Theorem splitlines_unlines (lines : list (list N)) :
  Forall (Forall (fun c => is_linebreak c = false)) lines ->
  splitlines (unlines lines) = lines.
Proof.
  unfold splitlines, unlines. induction 1 as [|l lines Hl _ IH]; [done|].
  csimpl. rewrite <- app_assoc. cbn [app].
  rewrite splitlines_from_line by done.
  by rewrite app_nil_r, rev_involutive, IH.
Qed.

Lemma splitlines_from_clean (n : nat) (cur s : list N) :
  (length s <= n)%nat ->
  Forall (fun c => is_linebreak c = false) cur ->
  Forall (Forall (fun c => is_linebreak c = false)) (splitlines_from cur s).
Proof.
  revert cur s. induction n as [|n IH]; intros cur s Hlen Hcur.
  - destruct s; [|simpl in Hlen; lia]. simpl.
    destruct cur; [done|]. repeat constructor. by apply List.Forall_rev.
  - destruct s as [|c s].
    { simpl. destruct cur; [done|]. repeat constructor. by apply List.Forall_rev. }
    simpl in Hlen. cbn [splitlines_from]. destruct (is_linebreak c) eqn:Ec.
    + constructor; [by apply List.Forall_rev|].
      destruct s as [|c' s]; [done|].
      destruct ((c =? 13) && (c' =? 10)); apply IH; simpl in *; try lia; done.
    + apply IH; [lia|]. by constructor.
Qed.

(** X12: no line that [splitlines] returns contains a line-break
    character. *)
Theorem splitlines_clean (s : list N) :
  Forall (Forall (fun c => is_linebreak c = false)) (splitlines s).
Proof. by apply (splitlines_from_clean (length s)). Qed.

End TextFacts.

(** Two lines of a chat joined and split again. *)
Lemma splitlines_unlines_witness :
  Text.splitlines (Text.unlines [Text.txt "1/1/23, 9:00 pm - A: hi"; Text.txt "there"])
  = [Text.txt "1/1/23, 9:00 pm - A: hi"; Text.txt "there"].
Proof.
  apply (splitlines_unlines [Text.txt "1/1/23, 9:00 pm - A: hi"; Text.txt "there"]).
  repeat constructor.
Defined.

Section StripFacts.
Import Text.

Lemma lstrip_head (s : list N) :
  from_option (fun c => is_space c = false) True (head (lstrip s)).
Proof. induction s as [|c s IH]; [done|]. simpl. by destruct (is_space c) eqn:E. Qed.

Lemma lstrip_id (s : list N) :
  from_option (fun c => is_space c = false) True (head s) -> lstrip s = s.
Proof. destruct s as [|c s]; [done|]. simpl. by intros ->. Qed.

(** [lstrip] removes a run of white space and nothing else. *)
Lemma lstrip_split (s : list N) :
  exists pre, s = pre ++ lstrip s /\ Forall (fun c => is_space c = true) pre.
Proof.
  induction s as [|c s (pre & Hs & Hpre)]; [by exists []|].
  simpl. destruct (is_space c) eqn:E.
  - exists (c :: pre). split; [by rewrite Hs at 1|by constructor].
  - by exists [].
Qed.

Lemma head_rev (s : list N) : head (rev s) = last s.
Proof.
  induction s as [|c s IH] using rev_ind; [done|].
  by rewrite rev_app_distr, last_snoc.
Qed.

Lemma last_rev (s : list N) : last (rev s) = head s.
Proof. by rewrite <- head_rev, rev_involutive. Qed.

Lemma rstrip_last (s : list N) :
  from_option (fun c => is_space c = false) True (last (rstrip s)).
Proof. unfold rstrip. rewrite last_rev. apply lstrip_head. Qed.

Lemma rstrip_id (s : list N) :
  from_option (fun c => is_space c = false) True (last s) -> rstrip s = s.
Proof.
  intros H. unfold rstrip. rewrite lstrip_id, rev_involutive; [done|].
  by rewrite head_rev.
Qed.

Lemma rstrip_split (s : list N) :
  exists post, s = rstrip s ++ post /\ Forall (fun c => is_space c = true) post.
Proof.
  unfold rstrip. destruct (lstrip_split (rev s)) as (pre & Hs & Hpre).
  exists (rev pre). split; [|by apply List.Forall_rev].
  by rewrite <- rev_app_distr, <- Hs, rev_involutive.
Qed.

Lemma rstrip_head (s : list N) :
  from_option (fun c => is_space c = false) True (head s) ->
  from_option (fun c => is_space c = false) True (head (rstrip s)).
Proof.
  intros H. destruct (rstrip_split s) as (post & Hs & Hpost).
  destruct (rstrip s) as [|c t]; [done|]. rewrite Hs in H. exact H.
Qed.

Lemma strip_split (s : list N) :
  exists pre post,
    s = pre ++ strip s ++ post
    /\ Forall (fun c => is_space c = true) pre
    /\ Forall (fun c => is_space c = true) post.
Proof.
  destruct (lstrip_split s) as (pre & Hs & Hpre).
  destruct (rstrip_split (lstrip s)) as (post & Hs' & Hpost).
  exists pre, post. unfold strip. by rewrite <- Hs', <- Hs.
Qed.

Lemma strip_trimmed (s : list N) : trimmed (strip s).
Proof. split; [apply rstrip_head, lstrip_head|apply rstrip_last]. Qed.

Lemma strip_fixed (s : list N) : trimmed s -> strip s = s.
Proof. intros [Hh Hl]. unfold strip. by rewrite (lstrip_id _ Hh), (rstrip_id _ Hl). Qed.

(** X13: [strip] returns its argument with a run of white space removed
    at either end and nothing else; what it returns has no white space at
    either end, and stripping it again changes nothing. *)
Theorem strip_trims (s : list N) :
  (exists pre post,
      s = pre ++ strip s ++ post
      /\ Forall (fun c => is_space c = true) pre
      /\ Forall (fun c => is_space c = true) post)
  /\ trimmed (strip s)
  /\ strip (strip s) = strip s.
Proof.
  split; [apply strip_split|]. split; [apply strip_trimmed|].
  apply strip_fixed, strip_trimmed.
Qed.

End StripFacts.

(** ** The matcher reads its input left to right *)

Section EngineFacts.
Import Text Regex.
Context {U : UnicodeData}.

(** A repetition reads a run of characters of its class, at least [lo]
    of them, before handing over. *)
Lemma rep_reads {A} (ic : bool) (k : cls) (lo : nat) (hi : option nat) prev s
    (cont : option N -> list N -> option A) (a : A) :
  rep ic k lo hi prev s cont = Some a ->
  exists mid s',
    s = mid ++ s'
    /\ Forall (fun c => cls_match ic k c = true) mid
    /\ (lo <= length mid)%nat
    /\ cont (left_of prev mid) s' = Some a.
Proof.
  revert lo hi prev. induction s as [|c s IH]; intros lo hi prev; cbn [rep].
  - destruct lo; [|done]. intros H. exists [], []. repeat split; [constructor|done..].
  - assert (match lo with O => cont prev (c :: s) | S _ => None end = Some a ->
            exists mid s', c :: s = mid ++ s'
              /\ Forall (fun c => cls_match ic k c = true) mid
              /\ (lo <= length mid)%nat /\ cont (left_of prev mid) s' = Some a) as Hstop.
    { destruct lo; [|done]. intros H. exists [], (c :: s).
      repeat split; [constructor|done..]. }
    destruct (cls_match ic k c && negb (bool_decide (hi = Some O))) eqn:E; [|done].
    apply andb_prop in E as [Ec _].
    destruct (rep ic k (pred lo) (pred <$> hi) (Some c) s cont) as [a'|] eqn:Er; [|done].
    intros [= ->]. apply IH in Er as (mid & s' & -> & Hmid & Hlo & Hc).
    exists (c :: mid), s'. rewrite left_of_cons.
    repeat split; [by constructor|simpl; lia|done].
Qed.

(** An unbounded repetition from zero followed by something that cannot
    fail reads the whole run: it stops only at the end of the input or at
    a character outside its class. *)
Lemma rep_reads_all {A} (ic : bool) (k : cls) prev s
    (cont : option N -> list N -> option A) :
  (forall p s', is_Some (cont p s')) ->
  exists mid s',
    s = mid ++ s'
    /\ Forall (fun c => cls_match ic k c = true) mid
    /\ from_option (fun c => cls_match ic k c = false) True (head s')
    /\ rep ic k 0 None prev s cont = cont (left_of prev mid) s'.
Proof.
  intros Htotal. revert prev. induction s as [|c s IH]; intros prev; cbn [rep].
  - exists [], []. repeat split; [constructor|done..].
  - destruct (cls_match ic k c) eqn:Ec; cbn.
    + destruct (IH (Some c)) as (mid & s' & -> & Hmid & Hhead & ->).
      exists (c :: mid), s'. rewrite left_of_cons.
      destruct (Htotal (left_of (Some c) mid) s') as [a ->].
      repeat split; [by constructor|done..].
    + exists [], (c :: s). repeat split; [constructor|done..].
Qed.

(** Whatever the pattern, a successful run hands over at a later
    position of the same input. *)
Lemma run_reads {A} (ic : bool) (r : re) prev s caps
    (cont : option N -> list N -> gmap nat (list N) -> option A) (a : A) :
  run ic r prev s caps cont = Some a ->
  exists mid s' prev' caps', s = mid ++ s' /\ cont prev' s' caps' = Some a.
Proof.
  revert prev s caps cont. induction r as [|k|r1 IH1 r2 IH2|r1 IH1 r2 IH2|k lo hi|n r IH|];
    intros prev s caps cont; cbn [run].
  - intros H. by exists [], s, prev, caps.
  - destruct s as [|c s]; [done|]. destruct (cls_match ic k c); [|done].
    intros H. by exists [c], s, (Some c), caps.
  - intros (mid1 & s1 & p1 & c1 & -> & H)%IH1.
    apply IH2 in H as (mid2 & s2 & p2 & c2 & -> & H).
    exists (mid1 ++ mid2), s2, p2, c2. by rewrite <- app_assoc.
  - destruct (run ic r1 prev s caps cont) as [a'|] eqn:E1.
    + intros [= ->]. by apply IH1 in E1.
    + apply IH2.
  - intros (mid & s' & -> & _ & _ & H)%rep_reads. by exists mid, s', (left_of prev mid), caps.
  - intros (mid & s' & p' & c' & -> & H)%IH. eauto 10.
  - destruct (at_boundary prev s); [|done]. intros H. by exists [], s, prev, caps.
Qed.

(** A run of literal characters, compared exactly, reads those characters. *)
Lemma exact_chars (mid cs : list N) :
  Forall2 (fun c x => item_match false (Chr x) c = true) mid cs -> mid = cs.
Proof.
  induction 1 as [|c x mid cs Hc _ IH]; [done|].
  simpl in Hc. apply N.eqb_eq in Hc. by subst.
Qed.

End EngineFacts.

(** ** The shape of an accepted line *)

Section LineShape.
Import Text Regex Datetime Parser.
Context {U : UnicodeData}.

Lemma take_read (mid s' : list N) :
  take (length (mid ++ s') - length s') (mid ++ s') = mid.
Proof.
  rewrite length_app, Nat.add_sub. apply take_app_length.
Qed.

(** A pattern made of a first group, a separator, a second group that is
    a run of one class, another separator and a last group that is a run
    of one class to the end. *)
Lemma match_three_groups (G : re) (sep1 sep2 : string) (k2 k3 : cls)
    (line : list N) groups rest :
  re_match false
    (Seq (Grp 1 G) (Seq (lit sep1) (Seq (Grp 2 (Rep k2 1 None))
       (Seq (lit sep2) (Seq (Grp 3 (Rep k3 0 None)) Eps))))) line
  = Some (groups, rest) ->
  line = group groups 1 ++ txt sep1 ++ group groups 2 ++ txt sep2
         ++ group groups 3 ++ rest
  /\ Forall (fun c => cls_match false k2 c = true) (group groups 2)
  /\ group groups 2 <> []
  /\ Forall (fun c => cls_match false k3 c = true) (group groups 3)
  /\ from_option (fun c => cls_match false k3 c = false) True (head rest).
Proof.
  unfold re_match. cbn [run].
  intros (g1 & s1 & p1 & c1 & -> & H)%run_reads. rewrite take_read in H.
  unfold lit in H.
  apply run_chars in H as (m1 & s2 & -> & ->%exact_chars & H).
  cbn [run] in H.
  apply rep_reads in H as (g2 & s3 & -> & Hg2 & Hlen & H). rewrite take_read in H.
  apply run_chars in H as (m2 & s4 & -> & ->%exact_chars & H).
  cbn [run] in H.
  match type of H with
  | rep false k3 0 None ?p s4 ?cont = _ =>
      destruct (rep_reads_all false k3 p s4 cont) as (g3 & s5 & -> & Hg3 & Hhead & Hrep);
        [by eauto|rewrite Hrep in H]
  end.
  rewrite take_read in H. injection H as <- <-.
  unfold group. rewrite !lookup_insert.
  repeat (case_decide; try lia). unfold default, from_option, id.
  repeat split; try done.
  intros ->. simpl in Hlen. lia.
Qed.

Lemma strptime_valid (s : list N) (fmt : list directive) (t : datetime) :
  strptime s fmt = Some t -> valid t = true.
Proof.
  unfold strptime. destruct (re_match true (format_re fmt) s) as [[caps rest]|]; [|done].
  destruct rest; [|done]. cbv zeta.
  match goal with |- (if valid ?x then _ else _) = _ -> _ =>
    destruct (valid x) eqn:E; [by intros [= <-]|done] end.
Qed.

(** A line that yields a row reads [date - author: text]: the row's
    message is the text after the first [": "] that follows the author,
    up to the end of the line or a line feed; the author is a non-empty
    run without a colon and the row's user is the author stripped; the
    date part parses under one of the two formats, to a valid date and
    time. *)
Lemma line_shape (line : list N) (r : row) :
  parse_line line = Some r ->
  exists date_str author rest,
    line = date_str ++ txt " - " ++ author ++ txt ": " ++ message r ++ rest
    /\ author <> [] /\ Forall (fun c => c <> 58%N) author
    /\ user r = strip author
    /\ Forall (fun c => c <> 10%N) (message r)
    /\ (rest = [] \/ head rest = Some 10%N)
    /\ (strptime date_str day_first = Some (timestamp r)
        \/ strptime date_str month_first = Some (timestamp r))
    /\ valid (timestamp r) = true.
Proof.
  unfold parse_line.
  destruct (re_match false pattern line) as [[groups rest]|] eqn:E; [|done].
  apply match_three_groups in E as (Hline & Hauthor & Hne & Htext & Hrest).
  intros Hr. exists (group groups 1), (group groups 2), rest.
  assert (message r = group groups 3 /\ user r = strip (group groups 2)
          /\ (strptime (group groups 1) day_first = Some (timestamp r)
              \/ strptime (group groups 1) month_first = Some (timestamp r)))
    as (-> & -> & Hts).
  { destruct (strptime (group groups 1) day_first) as [t|] eqn:E1.
    - injection Hr as <-. auto.
    - destruct (strptime (group groups 1) month_first) as [t|] eqn:E2; [|done].
      injection Hr as <-. auto. }
  split; [done|]. split; [done|]. split.
  { eapply Forall_impl; [exact Hauthor|]. intros c Hc ->. done. }
  split; [done|]. split.
  { eapply Forall_impl; [exact Htext|]. intros c Hc ->. done. }
  split.
  { destruct rest as [|c rest']; [by left|right]. simpl in Hrest |- *.
    apply negb_false_iff, N.eqb_eq in Hrest. by subst. }
  split; [done|]. destruct Hts as [Hts|Hts]; by apply strptime_valid in Hts.
Qed.

(** X14: every row [parse_chat] returns comes from a line of the input
    that reads [date - author: message] in full; its user is the author
    stripped, with no white space left at either end and no colon; its
    timestamp is a valid date and time; its message is not the media
    placeholder. *)
Theorem parsed_rows (text : list N) (df : list row) :
  parse_chat text = Some df ->
  Forall (fun r =>
    (exists line date_str author,
        line ∈ splitlines text
        /\ line = date_str ++ txt " - " ++ author ++ txt ": " ++ message r
        /\ user r = strip author /\ Forall (fun c => c <> 58%N) author)
    /\ strip (user r) = user r
    /\ Forall (fun c => c <> 58%N) (user r)
    /\ valid (timestamp r) = true
    /\ message r <> media_omitted) df.
Proof.
  intros ->%parse_chat_rows. apply Forall_forall.
  intros r [Hmedia Hr]%list_elem_of_filter.
  apply list_elem_of_omap in Hr as (line & Hin & Hline).
  apply line_shape in Hline
    as (date_str & author & rest & Hshape & _ & Hcolon & Huser & _ & Hrest & _ & Hvalid).
  assert (rest = []) as ->.
  { destruct Hrest as [->|Hhead]; [done|]. exfalso.
    pose proof (splitlines_from_clean (length text) [] text (le_n _) (List.Forall_nil _))
      as Hclean. fold (splitlines text) in Hclean.
    rewrite Forall_forall in Hclean. specialize (Hclean line Hin).
    rewrite Hshape, !Forall_app in Hclean.
    destruct Hclean as (_ & _ & _ & _ & _ & Hclean).
    destruct rest as [|c rest']; [done|]. injection Hhead as ->.
    by inversion Hclean. }
  rewrite app_nil_r in Hshape.
  destruct (strip_split author) as (pre & post & Hsplit & _ & _).
  split; [by exists line, date_str, author|]. split.
  { rewrite Huser. apply strip_fixed, strip_trimmed. }
  split; [|done].
  rewrite Huser. rewrite Hsplit, !Forall_app in Hcolon. tauto.
Qed.

End LineShape.

(** The parser on [with_noise] again: its two rows. *)
Lemma parsed_rows_witness :
  Forall (fun r =>
    (exists line date_str author,
        line ∈ Text.splitlines (Sample.text_of Sample.with_noise)
        /\ line = date_str ++ Text.txt " - " ++ author ++ Text.txt ": "
                  ++ Parser.message r
        /\ Parser.user r = Text.strip author /\ Forall (fun c => c <> 58%N) author)
    /\ Text.strip (Parser.user r) = Parser.user r
    /\ Forall (fun c => c <> 58%N) (Parser.user r)
    /\ Datetime.valid (Parser.timestamp r) = true
    /\ Parser.message r <> Parser.media_omitted)
    [Parser.Row (Datetime.Datetime 2023 12 25 22 5) Sample.alice
       (Text.txt "merry christmas");
     Parser.Row (Datetime.Datetime 2023 12 25 22 9) Sample.bob
       (Text.txt "thanks, you too")].
Proof.
  apply (@parsed_rows ascii_only (Sample.text_of Sample.with_noise)). by vm_compute.
Defined.

(** ** Conversation starters, continued *)

Section StartersMore.
Import Text Datetime Parser Starters.

Lemma value_counts_positive (xs : list (list N)) (a : list N) (n : nat) :
  value_counts xs !! a = Some n -> (1 <= n)%nat /\ a ∈ xs.
Proof.
  revert n. induction xs as [|x xs IH] using rev_ind; intros n; [done|].
  rewrite value_counts_snoc. destruct (decide (x = a)) as [->|Hne].
  - rewrite lookup_insert_eq. intros [= <-]. split; [lia|]. set_solver.
  - rewrite lookup_insert_ne by done. intros [? ?]%IH. split; [done|]. set_solver.
Qed.

Lemma starters_from_rows (df : list row) (a : list N) :
  a ∈ starters df -> exists r, r ∈ df /\ user r = a.
Proof.
  destruct df as [|first rest]; [by intros ?%elem_of_nil|].
  rewrite starters_pairs. intros [->|Hin]%elem_of_cons.
  - exists first. split; [left|done].
  - apply list_elem_of_fmap in Hin as ([prev cur] & -> & Hin).
    apply list_elem_of_filter in Hin as [_ Hin].
    exists cur. split; [|done]. unfold adjacent in Hin.
    apply elem_of_zip_r in Hin. by right.
Qed.

(** X15: every author [analyze_starters] lists wrote some row of the frame
    and is listed with a count of at least 1; the counts add up to at most
    the number of rows; the empty frame gives the empty result, and a frame
    without a silence of more than six hours lists its first author alone,
    once. *)
Theorem starters_listed (df : list row) :
  (forall a n, analyze_starters df !! a = Some n ->
     (1 <= n)%nat /\ exists r, r ∈ df /\ user r = a)
  /\ (total (analyze_starters df) <= length df)%nat
  /\ (df = [] -> analyze_starters df = ∅)
  /\ (forall first rest, df = first :: rest -> new_conversations df = [] ->
        analyze_starters df = {[ user first := 1%nat ]}).
Proof.
  unfold analyze_starters. split; [|split; [|split]].
  - intros a n [Hn Hin]%value_counts_positive. split; [done|].
    by apply starters_from_rows.
  - rewrite total_value_counts. destruct df as [|first rest]; [done|].
    rewrite starters_pairs. cbn [length]. rewrite length_fmap.
    unfold new_conversations.
    pose proof (length_filter long_gap (adjacent (first :: rest))) as Hle.
    rewrite adjacent_length in Hle. simpl in Hle. lia.
  - by intros ->.
  - intros first rest -> Hquiet. rewrite starters_pairs, Hquiet. done.
Qed.

End StartersMore.

(** ** Engagement balance, continued *)

Section DynamicsMore.
Import Text Regex Parser Metrics Dynamics.
Context {U : UnicodeData}.

Lemma filter_disjoint_length {A} (P Q : A -> Prop)
    `{!forall x, Decision (P x)} `{!forall x, Decision (Q x)} (l : list A) :
  (forall x, P x -> Q x -> False) ->
  (length (filter P l) + length (filter Q l) <= length l)%nat.
Proof.
  intros Hdis. induction l as [|x l IH]; [done|]. rewrite !filter_cons.
  destruct (decide (P x)) as [HP|], (decide (Q x)) as [HQ|]; simpl; try lia.
  destruct (Hdis x HP HQ).
Qed.

Lemma mean_len_some (msgs : list (list N)) (a : Q) :
  mean_len msgs = Some a ->
  msgs <> [] /\ a = (qnat (list_sum (length <$> msgs)) / qnat (length msgs))%Q.
Proof. destruct msgs; [done|]. by intros [= <-]. Qed.

Lemma list_sum_between (lo hi : nat) (l : list nat) :
  Forall (fun x => lo <= x <= hi)%nat l ->
  (length l * lo <= list_sum l <= length l * hi)%nat.
Proof. induction 1 as [|x l Hx _ IH]; simpl; lia. Qed.

(** X16: for two different users the low-effort counts together never
    exceed the number of rows of the frame; the average length of a user
    is missing exactly when the user wrote nothing, and otherwise lies
    between the lengths of the user's shortest and longest message. *)
Theorem engagement_totals (df : list row) (user1 user2 : list N) :
  let result := analyze_chat_dynamics df user1 user2 in
  let messages_of u := message <$> filter (fun r => user r = u) df in
  (user1 <> user2 ->
     ((le_count result).1 + (le_count result).2 <= length df)%nat)
  /\ ((avg_len result).1 = None <-> messages_of user1 = [])
  /\ ((avg_len result).2 = None <-> messages_of user2 = [])
  /\ (forall a lo hi, (avg_len result).1 = Some a ->
        Forall (fun msg => lo <= length msg <= hi)%nat (messages_of user1) ->
        (qnat lo <= a)%Q /\ (a <= qnat hi)%Q)
  /\ (forall a lo hi, (avg_len result).2 = Some a ->
        Forall (fun msg => lo <= length msg <= hi)%nat (messages_of user2) ->
        (qnat lo <= a)%Q /\ (a <= qnat hi)%Q).
Proof.
  intros result messages_of. unfold result, analyze_chat_dynamics.
  cbn [le_count avg_len fst snd]. fold (messages_of user1) (messages_of user2).
  assert (forall msgs, mean_len msgs = None <-> msgs = []) as Hnone.
  { intros [|msg msgs]; by split. }
  assert (forall msgs a lo hi, mean_len msgs = Some a ->
            Forall (fun msg => lo <= length msg <= hi)%nat msgs ->
            (qnat lo <= a)%Q /\ (a <= qnat hi)%Q) as Hmean.
  { intros l a lo hi Hmean Hall.
    apply mean_len_some in Hmean as [Hne ->].
    assert (0 < length l)%nat as Hn by (destruct l; [done|simpl; lia]).
    assert (0 < qnat (length l))%Q as Hpos by by apply qnat_pos.
    assert (Forall (fun x => lo <= x <= hi)%nat (length <$> l)) as Hlens
      by (apply Forall_fmap; exact Hall).
    apply list_sum_between in Hlens.
    rewrite length_fmap in Hlens. destruct Hlens as [Hlo Hhi].
    split.
    - apply Qle_shift_div_l; [done|]. unfold qnat.
      rewrite <- inject_Z_mult, <- Zle_Qle, <- Nat2Z.inj_mul. apply inj_le. lia.
    - apply Qle_shift_div_r; [done|]. unfold qnat.
      rewrite <- inject_Z_mult, <- Zle_Qle, <- Nat2Z.inj_mul. apply inj_le. lia. }
  split; [|by eauto 10].
  intros Hne. unfold messages_of. rewrite !count_low_effort_rows.
  apply filter_disjoint_length. intros r [H1 _] [H2 _]. congruence.
Qed.

End DynamicsMore.

(** ** The am/pm marker *)

Section Marker.
Import Text Regex Datetime Parser.
Context {U : UnicodeData}.






End Marker.


(** ** The calendar: order of dates and times *)

Section Calendar.
Import Datetime.

Lemma is_leap_cases (y : Z) :
  (is_leap y = true /\ (y mod 4 = 0 /\ (y mod 100 <> 0 \/ y mod 400 = 0)))
  \/ (is_leap y = false /\ (y mod 4 <> 0 \/ (y mod 100 = 0 /\ y mod 400 <> 0))).
Proof.
  unfold is_leap.
  destruct (Z.eqb_spec (y mod 4) 0), (Z.eqb_spec (y mod 100) 0),
    (Z.eqb_spec (y mod 400) 0); simpl; intuition lia.
Qed.

(** A year has 365 days, or 366 when it is a leap year. *)
Lemma days_before_year_step (y : Z) :
  days_before_year (y + 1) = days_before_year y + 365 + (if is_leap y then 1 else 0).
Proof.
  unfold days_before_year. cbv zeta.
  replace (y + 1 - 1) with y by lia.
  destruct (is_leap_cases y) as [[-> H]|[-> H]]; Z.div_mod_to_equations; lia.
Qed.

Lemma days_before_year_later (y1 y2 : Z) :
  y1 < y2 ->
  days_before_year y1 + 365 + (if is_leap y1 then 1 else 0) <= days_before_year y2.
Proof.
  intros H. replace y2 with (y1 + 1 + (y2 - y1 - 1)) by lia.
  assert (0 <= y2 - y1 - 1) as Hk by lia. revert Hk.
  generalize (y2 - y1 - 1). apply natlike_ind.
  - rewrite Z.add_0_r, days_before_year_step. lia.
  - intros k Hk IH. replace (y1 + 1 + Z.succ k) with (y1 + 1 + k + 1) by lia.
    rewrite days_before_year_step. destruct (is_leap (y1 + 1 + k)); lia.
Qed.

(** The day of the year of a valid date lies within the year. *)
Lemma day_of_year_range (y m d : Z) :
  1 <= m <= 12 -> 1 <= d <= days_in_month y m ->
  1 <= days_before_month y m + d <= 365 + (if is_leap y then 1 else 0).
Proof.
  intros Hm. unfold days_in_month, days_before_month.
  assert (m = 1 \/ m = 2 \/ m = 3 \/ m = 4 \/ m = 5 \/ m = 6 \/ m = 7 \/ m = 8
          \/ m = 9 \/ m = 10 \/ m = 11 \/ m = 12) as Hcases by lia.
  destruct (is_leap y);
    repeat (destruct Hcases as [->|Hcases]; [simpl; lia|]); subst; simpl; lia.
Qed.

(** Within a year, a later month or a later day of the same month is a
    later day of the year. *)
Lemma day_of_year_later (y m1 d1 m2 d2 : Z) :
  1 <= m1 <= 12 -> 1 <= m2 <= 12 ->
  1 <= d1 <= days_in_month y m1 -> 1 <= d2 <= days_in_month y m2 ->
  m1 < m2 ->
  days_before_month y m1 + d1 < days_before_month y m2 + d2.
Proof.
  intros H1 H2. unfold days_in_month, days_before_month.
  assert (m1 = 1 \/ m1 = 2 \/ m1 = 3 \/ m1 = 4 \/ m1 = 5 \/ m1 = 6 \/ m1 = 7
          \/ m1 = 8 \/ m1 = 9 \/ m1 = 10 \/ m1 = 11 \/ m1 = 12) as C1 by lia.
  assert (m2 = 1 \/ m2 = 2 \/ m2 = 3 \/ m2 = 4 \/ m2 = 5 \/ m2 = 6 \/ m2 = 7
          \/ m2 = 8 \/ m2 = 9 \/ m2 = 10 \/ m2 = 11 \/ m2 = 12) as C2 by lia.
  destruct (is_leap y);
    repeat (destruct C1 as [->|C1]); subst;
    repeat (destruct C2 as [->|C2]); subst; simpl; lia.
Qed.

Lemma valid_bounds (t : datetime) :
  valid t = true ->
  1 <= year t <= 9999 /\ 1 <= month t <= 12
  /\ 1 <= day t <= days_in_month (year t) (month t)
  /\ 0 <= hour t <= 23 /\ 0 <= minute t <= 59.
Proof.
  unfold valid. rewrite !andb_true_iff, !Z.leb_le. tauto.
Qed.

(** A later date has a larger ordinal. *)
Lemma ymd2ord_later (y1 m1 d1 y2 m2 d2 : Z) :
  1 <= m1 <= 12 -> 1 <= d1 <= days_in_month y1 m1 ->
  1 <= m2 <= 12 -> 1 <= d2 <= days_in_month y2 m2 ->
  y1 < y2 \/ (y1 = y2 /\ (m1 < m2 \/ (m1 = m2 /\ d1 < d2))) ->
  ymd2ord y1 m1 d1 < ymd2ord y2 m2 d2.
Proof.
  intros Hm1 Hd1 Hm2 Hd2 H. unfold ymd2ord.
  pose proof (day_of_year_range y1 m1 d1 Hm1 Hd1).
  pose proof (day_of_year_range y2 m2 d2 Hm2 Hd2).
  destruct H as [Hy|[-> [Hm|[-> Hd]]]].
  - pose proof (days_before_year_later y1 y2 Hy). lia.
  - pose proof (day_of_year_later y2 m1 d1 m2 d2 Hm1 Hm2 Hd1 Hd2 Hm). lia.
  - lia.
Qed.

Lemma dt_ltb_lex (a b : datetime) :
  dt_ltb a b = true
  <-> year a < year b \/ (year a = year b /\
       (month a < month b \/ (month a = month b /\
         (day a < day b \/ (day a = day b /\
           (hour a < hour b \/ (hour a = hour b /\ minute a < minute b))))))).
Proof.
  unfold dt_ltb, fields. cbn [lex_ltb]. rewrite andb_false_r, orb_false_r.
  repeat match goal with
  | |- context [?x <? ?y] => destruct (Z.ltb_spec x y)
  | |- context [?x =? ?y] => destruct (Z.eqb_spec x y)
  end; cbn [orb andb]; (split; [intros; try discriminate; lia|intros; try done; lia]).
Qed.

(** On valid dates and times, the order field by field is the order of
    the minutes elapsed. *)
Lemma dt_ltb_minutes (a b : datetime) :
  valid a = true -> valid b = true ->
  dt_ltb a b = true <-> to_minutes a < to_minutes b.
Proof.
  intros (Hya & Hma & Hda & Hha & Hia)%valid_bounds
         (Hyb & Hmb & Hdb & Hhb & Hib)%valid_bounds.
  rewrite dt_ltb_lex. unfold to_minutes.
  pose proof (ymd2ord_later (year a) (month a) (day a) (year b) (month b) (day b)
                Hma Hda Hmb Hdb) as Hab.
  pose proof (ymd2ord_later (year b) (month b) (day b) (year a) (month a) (day a)
                Hmb Hdb Hma Hda) as Hba.
  split.
  - intros [H|[Hy [H|[Hm [H|[Hd H]]]]]].
    + assert (ymd2ord (year a) (month a) (day a) < ymd2ord (year b) (month b) (day b))
        by (apply Hab; tauto). lia.
    + assert (ymd2ord (year a) (month a) (day a) < ymd2ord (year b) (month b) (day b))
        by (apply Hab; tauto). lia.
    + assert (ymd2ord (year a) (month a) (day a) < ymd2ord (year b) (month b) (day b))
        by (apply Hab; tauto). lia.
    + rewrite Hy, Hm, Hd. lia.
  - intros Hlt.
    destruct (Z.lt_trichotomy (year a) (year b)) as [?|[Hy|?]]; [tauto| |].
    2:{ assert (ymd2ord (year b) (month b) (day b) < ymd2ord (year a) (month a) (day a))
          by (apply Hba; tauto). lia. }
    destruct (Z.lt_trichotomy (month a) (month b)) as [?|[Hm|?]]; [tauto| |].
    2:{ assert (ymd2ord (year b) (month b) (day b) < ymd2ord (year a) (month a) (day a))
          by (apply Hba; auto). lia. }
    destruct (Z.lt_trichotomy (day a) (day b)) as [?|[Hd|?]]; [tauto| |].
    2:{ assert (ymd2ord (year b) (month b) (day b) < ymd2ord (year a) (month a) (day a))
          by (apply Hba; auto). lia. }
    rewrite Hy, Hm, Hd in Hlt. right. split; [done|]. right. split; [done|].
    right. split; [done|]. lia.
Qed.


Lemma dt_max_minutes (a b : datetime) :
  valid a = true -> valid b = true ->
  valid (dt_max a b) = true
  /\ to_minutes (dt_max a b) = Z.max (to_minutes a) (to_minutes b).
Proof.
  intros Ha Hb. unfold dt_max. pose proof (dt_ltb_minutes a b Ha Hb) as H.
  destruct (dt_ltb a b); (split; [done|]).
  - assert (to_minutes a < to_minutes b) by by apply H. lia.
  - assert (~ to_minutes a < to_minutes b) by (intros ?%H; done). lia.
Qed.

Lemma dt_min_minutes (a b : datetime) :
  valid a = true -> valid b = true ->
  valid (dt_min a b) = true
  /\ to_minutes (dt_min a b) = Z.min (to_minutes a) (to_minutes b).
Proof.
  intros Ha Hb. unfold dt_min. pose proof (dt_ltb_minutes b a Hb Ha) as H.
  destruct (dt_ltb b a); (split; [done|]).
  - assert (to_minutes b < to_minutes a) by by apply H. lia.
  - assert (~ to_minutes b < to_minutes a) by (intros ?%H; done). lia.
Qed.

(** The latest and the earliest of a list of valid dates and times bound
    every member. *)
Lemma extremes_bound (ts : list datetime) (t : datetime) :
  valid t = true -> Forall (fun x => valid x = true) ts ->
  valid (fold_left dt_max ts t) = true
  /\ valid (fold_left dt_min ts t) = true
  /\ Forall (fun x => to_minutes (fold_left dt_min ts t) <= to_minutes x
                      <= to_minutes (fold_left dt_max ts t)) (t :: ts).
Proof.
  intros Ht Hts. revert t Ht.
  induction Hts as [|x ts Hx _ IH]; intros t Ht.
  - simpl. repeat split; try done. constructor; [lia|constructor].
  - cbn [fold_left].
    destruct (dt_max_minutes t x Ht Hx) as [Hv1 Hmax].
    destruct (dt_min_minutes t x Ht Hx) as [Hv2 Hmin].
    destruct (IH _ Hv1) as (Hmaxv & _ & Hup).
    destruct (IH _ Hv2) as (_ & Hminv & Hlo).
    split; [done|]. split; [done|].
    apply Forall_cons in Hup as [Hup1 Hup], Hlo as [Hlo1 Hlo].
    assert (Forall (fun y => to_minutes (fold_left dt_min ts (dt_min t x)) <= to_minutes y
                             <= to_minutes (fold_left dt_max ts (dt_max t x))) ts) as Hts'.
    { rewrite Forall_forall in Hup, Hlo. apply Forall_forall. intros y Hy.
      specialize (Hup y Hy). specialize (Hlo y Hy). lia. }
    repeat constructor; try lia. done.
Qed.


End Calendar.

(** ** Day coverage, continued *)

Section Coverage.
Import Text Datetime Parser Metrics.

Lemma bounded_nodup (l : list Z) (lo hi : Z) :
  NoDup l -> Forall (fun x => lo <= x <= hi) l ->
  (length l <= Z.to_nat (hi - lo + 1))%nat.
Proof.
  intros Hnd Hl. rewrite <- (length_seqZ lo (hi - lo + 1)).
  apply submseteq_length, NoDup_submseteq; [done|].
  intros x Hx. rewrite Forall_forall in Hl. apply elem_of_seqZ.
  specialize (Hl x Hx). lia.
Qed.

Lemma day_ordinal_minutes (t : datetime) :
  valid t = true -> day_ordinal t = to_minutes t / 1440.
Proof.
  intros (_ & _ & _ & Hh & Hm)%valid_bounds. unfold day_ordinal, to_minutes.
  Z.div_mod_to_equations. lia.
Qed.

Lemma day_ordinal_date (a b : datetime) :
  valid a = true -> valid b = true ->
  day_ordinal a = day_ordinal b -> date a = date b.
Proof.
  intros (_ & Hma & Hda & _)%valid_bounds (_ & Hmb & Hdb & _)%valid_bounds.
  unfold day_ordinal, date. intros Heq.
  pose proof (ymd2ord_later (year a) (month a) (day a) (year b) (month b) (day b)
                Hma Hda Hmb Hdb) as Hab.
  pose proof (ymd2ord_later (year b) (month b) (day b) (year a) (month a) (day a)
                Hmb Hdb Hma Hda) as Hba.
  destruct (Z.lt_trichotomy (year a) (year b)) as [?|[Hy|?]];
    [exfalso; assert (ymd2ord (year a) (month a) (day a) < ymd2ord (year b) (month b) (day b)) by (apply Hab; tauto); lia
    | |exfalso; assert (ymd2ord (year b) (month b) (day b) < ymd2ord (year a) (month a) (day a)) by (apply Hba; tauto); lia].
  destruct (Z.lt_trichotomy (month a) (month b)) as [?|[Hm|?]];
    [exfalso; assert (ymd2ord (year a) (month a) (day a) < ymd2ord (year b) (month b) (day b)) by (apply Hab; tauto); lia
    | |exfalso; assert (ymd2ord (year b) (month b) (day b) < ymd2ord (year a) (month a) (day a)) by (apply Hba; auto); lia].
  destruct (Z.lt_trichotomy (day a) (day b)) as [?|[Hd|?]];
    [exfalso; assert (ymd2ord (year a) (month a) (day a) < ymd2ord (year b) (month b) (day b)) by (apply Hab; tauto); lia
    | |exfalso; assert (ymd2ord (year b) (month b) (day b) < ymd2ord (year a) (month a) (day a)) by (apply Hba; auto); lia].
  by rewrite Hy, Hm, Hd.
Qed.

(** The distinct days of a frame of valid timestamps are at most one more
    than the whole days between its earliest and latest timestamp, plus
    one. *)
Lemma chat_days_le (df : list row) (n : Z) :
  Forall (fun r => valid (timestamp r) = true) df ->
  total_days df = Some n ->
  1 <= n /\ (1 <= chat_days df)%nat /\ Z.of_nat (chat_days df) <= n + 1.
Proof.
  intros Hvalid Htotal. unfold total_days in Htotal.
  destruct df as [|r0 rest]; [done|]. cbn [fmap list_fmap] in Htotal.
  injection Htotal as <-.
  assert (Forall (fun x => valid x = true) (timestamp <$> r0 :: rest)) as Hts.
  { apply Forall_fmap. exact Hvalid. }
  cbn [fmap list_fmap] in Hts. apply Forall_cons in Hts as [Ht0 Hts].
  destruct (extremes_bound _ _ Ht0 Hts) as (_ & _ & Hbound).
  set (M := to_minutes (fold_left dt_max (timestamp <$> rest) (timestamp r0))) in *.
  set (m := to_minutes (fold_left dt_min (timestamp <$> rest) (timestamp r0))) in *.
  change (timestamp r0 :: (timestamp <$> rest)) with (timestamp <$> r0 :: rest) in Hbound.
  assert (m <= M) as HmM.
  { apply Forall_cons in Hbound as [H0 _]. lia. }
  unfold delta_days, diff_minutes. fold M m.
  split; [Z.div_mod_to_equations; lia|].
  unfold chat_days.
  set (dates := remove_dups ((fun r => date (timestamp r)) <$> r0 :: rest)).
  assert (forall p, p ∈ dates ->
            exists r, r ∈ r0 :: rest /\ p = date (timestamp r)) as Hdates.
  { intros p Hp. apply elem_of_remove_dups, list_elem_of_fmap in Hp as (r & -> & Hr).
    eauto. }
  split.
  { destruct dates as [|p dates'] eqn:E; [|simpl; lia]. exfalso.
    assert (date (timestamp r0) ∈ dates) as Hin.
    { apply elem_of_remove_dups, list_elem_of_fmap. exists r0. split; [done|left]. }
    rewrite E in Hin. by apply elem_of_nil in Hin. }
  set (ord := fun p : Z * Z * Z => ymd2ord p.1.1 p.1.2 p.2).
  assert (length dates <= Z.to_nat (M / 1440 - m / 1440 + 1))%nat as Hlen.
  { rewrite <- (length_fmap ord). apply bounded_nodup.
    - apply NoDup_fmap_2_strong; [|apply NoDup_remove_dups].
      intros p q (rp & Hrp & ->)%Hdates (rq & Hrq & ->)%Hdates Heq.
      rewrite Forall_forall in Hvalid.
      apply day_ordinal_date; [by apply Hvalid..|exact Heq].
    - apply Forall_forall. intros x (p & -> & (r & Hr & ->)%Hdates)%list_elem_of_fmap.
      rewrite Forall_forall in Hvalid. rewrite Forall_forall in Hbound.
      assert (timestamp r ∈ timestamp <$> r0 :: rest) as Hin
        by (apply list_elem_of_fmap; eauto).
      specialize (Hbound _ Hin). specialize (Hvalid r Hr).
      change (ord (date (timestamp r))) with (day_ordinal (timestamp r)).
      rewrite day_ordinal_minutes by done.
      Z.div_mod_to_equations. lia. }
  assert (0 <= M / 1440 - m / 1440 + 1 <= (M - m) / 1440 + 1 + 1) as Hspan
    by (Z.div_mod_to_equations; lia).
  apply Nat2Z.inj_le in Hlen. rewrite Z2Nat.id in Hlen by lia. lia.
Qed.

Context {U : UnicodeData}.

(** X18: on a non-empty frame of valid timestamps the day coverage is
    positive and never above 2: the distinct days are at most one more
    than the divisor, the whole days elapsed between the earliest and the
    latest timestamp plus one. *)
Theorem day_coverage_bounds (df : list row) (user other_user : list N) :
  df <> [] ->
  Forall (fun r => valid (timestamp r) = true) df ->
  let d := (get_base_metrics df user other_user).1.2 in
  (0 < d)%Q /\ (d <= 2)%Q
  /\ exists n, total_days df = Some n /\ 1 <= n
       /\ (1 <= chat_days df)%nat /\ Z.of_nat (chat_days df) <= n + 1
       /\ d = (qnat (chat_days df) / inject_Z n)%Q.
Proof.
  intros Hne Hvalid.
  destruct (total_days df) as [n|] eqn:Htotal;
    [|by destruct df; [|unfold total_days in Htotal]].
  destruct (chat_days_le df n Hvalid Htotal) as (Hn & Hc1 & Hc2).
  unfold get_base_metrics. cbv zeta. cbn [fst snd]. rewrite Htotal.
  replace (0 <? n) with true by (symmetry; apply Z.ltb_lt; lia).
  assert (0 < inject_Z n)%Q as Hpos.
  { change 0%Q with (inject_Z 0). rewrite <- Zlt_Qlt. lia. }
  split; [|split].
  - apply Qlt_shift_div_l; [done|]. rewrite Qmult_0_l. by apply qnat_pos.
  - apply Qle_shift_div_r; [done|]. unfold qnat.
    change 2%Q with (inject_Z 2). rewrite <- inject_Z_mult, <- Zle_Qle. lia.
  - exists n. by repeat split.
Qed.

End Coverage.

(** The extractor on [late_answer]: two distinct days over a span of
    three. *)
Lemma day_coverage_bounds_witness :
  let d := (@Metrics.get_base_metrics ascii_only Sample.late_answer
              Sample.alice Sample.bob).1.2 in
  (0 < d)%Q /\ (d <= 2)%Q
  /\ exists n, Metrics.total_days Sample.late_answer = Some n /\ 1 <= n
       /\ (1 <= Metrics.chat_days Sample.late_answer)%nat
       /\ Z.of_nat (Metrics.chat_days Sample.late_answer) <= n + 1
       /\ d = (Metrics.qnat (Metrics.chat_days Sample.late_answer) / inject_Z n)%Q.
Proof.
  apply (@day_coverage_bounds ascii_only Sample.late_answer Sample.alice Sample.bob).
  - discriminate.
  - repeat constructor.
Defined.
